(** * The hotel walkthrough page: bounds normalization, marker discovery
      and the camera fly-to animator of [src/app/sketch/page.tsx].

    Numbers.  The page is read twice.  In the first reading a JavaScript
    number is an extended rational: finite values are exact rationals
    ([Q]), and the three special values [Infinity], [-Infinity] and [NaN]
    follow the IEEE rules the code relies on ([isFinite], the empty
    [Box3] whose corners are infinite, comparisons with [NaN] being
    false).  Rounding, overflow and signed zeros are left out of it; it
    carries the statements that do not depend on them.  The second
    reading, module [Float64], is the animator in IEEE-754 binary64, the
    arithmetic the code runs in; it carries the statements about the
    animator that rounding decides.

    Engine.  [THREE.Vector3], [THREE.Box3] and [THREE.Sphere] are embedded
    with the operations the page calls.  A scene node of marker discovery
    carries a local translation and vertices; module [Posed] has the
    nodes with their full pose (position, rotation and scale) and the
    engine's box of an object as three.js computes it, for the statement
    about the ground.
    [Math.sqrt] of the first reading, the deployment's base path and
    [OrbitControls.update] are parameters of the development. *)

From Stdlib Require Import QArith Qabs Qminmax Lqa Lia ZArith Ascii String.
From Stdlib Require Import Floats.
From stdpp Require Import gmap strings list.

Open Scope Q_scope.

(** ** JavaScript numbers *)

Inductive num : Type :=
  | Fin (q : Q)
  | PInf
  | NInf
  | NaN.

Module Num.

Definition isFinite (a : num) : bool :=
  match a with Fin _ => true | _ => false end.

(** Unary minus. *)
Definition neg (a : num) : num :=
  match a with
  | Fin q => Fin (- q)
  | PInf => NInf
  | NInf => PInf
  | NaN => NaN
  end.

(** [a + b]. *)
Definition add (a b : num) : num :=
  match a, b with
  | NaN, _ | _, NaN => NaN
  | Fin p, Fin q => Fin (p + q)
  | PInf, NInf | NInf, PInf => NaN
  | PInf, _ | _, PInf => PInf
  | NInf, _ | _, NInf => NInf
  end.

(** [a - b]. *)
Definition sub (a b : num) : num := add a (neg b).

(** [a * b]: an infinity times zero is [NaN]. *)
Definition mul (a b : num) : num :=
  match a, b with
  | NaN, _ | _, NaN => NaN
  | Fin p, Fin q => Fin (p * q)
  | Fin p, PInf | PInf, Fin p =>
      match p ?= 0 with Eq => NaN | Gt => PInf | Lt => NInf end
  | Fin p, NInf | NInf, Fin p =>
      match p ?= 0 with Eq => NaN | Gt => NInf | Lt => PInf end
  | PInf, PInf | NInf, NInf => PInf
  | PInf, NInf | NInf, PInf => NInf
  end.

(** [a / b]: a finite non-zero value over zero is an infinity, [0 / 0]
    and an infinity over an infinity are [NaN]. *)
Definition div (a b : num) : num :=
  match a, b with
  | NaN, _ | _, NaN => NaN
  | Fin p, Fin q =>
      if Qeq_bool q 0
      then match p ?= 0 with Eq => NaN | Gt => PInf | Lt => NInf end
      else Fin (p / q)
  | Fin _, PInf | Fin _, NInf => Fin 0
  | PInf, Fin q => if Qle_bool 0 q then PInf else NInf
  | NInf, Fin q => if Qle_bool 0 q then NInf else PInf
  | _, _ => NaN
  end.

(** [a < b], [a <= b], [a >= b], [a === b]; false as soon as one side is
    [NaN]. *)
Definition ltb (a b : num) : bool :=
  match a, b with
  | NaN, _ | _, NaN => false
  | Fin p, Fin q => negb (Qle_bool q p)
  | PInf, _ | _, NInf => false
  | _, PInf | NInf, _ => true
  end.

Definition leb (a b : num) : bool :=
  match a, b with
  | NaN, _ | _, NaN => false
  | Fin p, Fin q => Qle_bool p q
  | NInf, _ | _, PInf => true
  | PInf, _ | _, NInf => false
  end.

Definition geb (a b : num) : bool := leb b a.

Definition eqb (a b : num) : bool :=
  match a, b with
  | Fin p, Fin q => Qeq_bool p q
  | PInf, PInf | NInf, NInf => true
  | _, _ => false
  end.

(** [Math.min(a, b)] and [Math.max(a, b)]: [NaN] when an argument is. *)
Definition min (a b : num) : num :=
  match a, b with
  | NaN, _ | _, NaN => NaN
  | _, _ => if leb a b then a else b
  end.

Definition max (a b : num) : num :=
  match a, b with
  | NaN, _ | _, NaN => NaN
  | _, _ => if leb a b then b else a
  end.

(** Truthiness of a number, as in [n || 1]: [0] and [NaN] are falsy. *)
Definition truthy (a : num) : bool :=
  match a with
  | Fin q => negb (Qeq_bool q 0)
  | NaN => false
  | _ => true
  end.

(** [Math.sqrt], over a square root [rt] of the non-negative rationals. *)
Definition sqrt (rt : Q -> Q) (a : num) : num :=
  match a with
  | Fin q => if Qle_bool 0 q then Fin (rt q) else NaN
  | PInf => PInf
  | _ => NaN
  end.

(** Numeric equality of two finite numbers up to [tol]. *)
Definition within (tol : Q) (a b : num) : Prop :=
  match a, b with
  | Fin p, Fin q => Qabs (p - q) <= tol
  | _, _ => False
  end.

End Num.

(** ** THREE.Vector3 *)

Module Vector3.

Record t : Type := mk { x : num; y : num; z : num }.

Definition zero : t := mk (Fin 0) (Fin 0) (Fin 0).

Definition isFinite (v : t) : bool :=
  Num.isFinite (x v) && Num.isFinite (y v) && Num.isFinite (z v).

(** [a.add(b)] and [new Vector3().addVectors(a, b)]. *)
Definition add (a b : t) : t :=
  mk (Num.add (x a) (x b)) (Num.add (y a) (y b)) (Num.add (z a) (z b)).

(** [new Vector3().subVectors(a, b)]. *)
Definition subVectors (a b : t) : t :=
  mk (Num.sub (x a) (x b)) (Num.sub (y a) (y b)) (Num.sub (z a) (z b)).

Definition multiplyScalar (v : t) (s : num) : t :=
  mk (Num.mul (x v) s) (Num.mul (y v) s) (Num.mul (z v) s).

(** [v.divideScalar(s)] is [v.multiplyScalar(1 / s)]. *)
Definition divideScalar (v : t) (s : num) : t :=
  multiplyScalar v (Num.div (Fin 1) s).

(** [a.addScaledVector(v, s)]: [a.x += v.x * s], and so on. *)
Definition addScaledVector (a v : t) (s : num) : t :=
  mk (Num.add (x a) (Num.mul (x v) s))
     (Num.add (y a) (Num.mul (y v) s))
     (Num.add (z a) (Num.mul (z v) s)).

(** [new Vector3().lerpVectors(v1, v2, alpha)]:
    [x = v1.x + (v2.x - v1.x) * alpha]. *)
Definition lerpVectors (v1 v2 : t) (alpha : num) : t :=
  mk (Num.add (x v1) (Num.mul (Num.sub (x v2) (x v1)) alpha))
     (Num.add (y v1) (Num.mul (Num.sub (y v2) (y v1)) alpha))
     (Num.add (z v1) (Num.mul (Num.sub (z v2) (z v1)) alpha)).

(** [a.min(b)] and [a.max(b)]: componentwise [Math.min] / [Math.max]. *)
Definition min (a b : t) : t :=
  mk (Num.min (x a) (x b)) (Num.min (y a) (y b)) (Num.min (z a) (z b)).

Definition max (a b : t) : t :=
  mk (Num.max (x a) (x b)) (Num.max (y a) (y b)) (Num.max (z a) (z b)).

Definition setY (v : t) (y' : num) : t := mk (x v) y' (z v).

(** [v.length()] is [Math.sqrt(x * x + y * y + z * z)]. *)
Definition length (rt : Q -> Q) (v : t) : num :=
  Num.sqrt rt
    (Num.add (Num.add (Num.mul (x v) (x v)) (Num.mul (y v) (y v)))
             (Num.mul (z v) (z v))).

(** [v.normalize()] is [v.divideScalar(v.length() || 1)]. *)
Definition normalize (rt : Q -> Q) (v : t) : t :=
  let l := length rt v in
  divideScalar v (if Num.truthy l then l else Fin 1).

(** Componentwise numeric equality up to [tol]. *)
Definition within (tol : Q) (a b : t) : Prop :=
  Num.within tol (x a) (x b) /\ Num.within tol (y a) (y b)
  /\ Num.within tol (z a) (z b).

End Vector3.

(** ** THREE.Sphere and THREE.Box3 *)

Module Sphere.

Record t : Type := mk { center : Vector3.t; radius : num }.

(** [sphere.makeEmpty()]: centre at the origin, radius [-1]. *)
Definition makeEmpty : t := mk Vector3.zero (Fin (- 1)).

End Sphere.

Module Box3.

Record t : Type := mk { min : Vector3.t; max : Vector3.t }.

(** [new Box3()] / [makeEmpty]: the corners are at the infinities. *)
Definition makeEmpty : t :=
  mk (Vector3.mk PInf PInf PInf) (Vector3.mk NInf NInf NInf).

Definition expandByPoint (b : t) (p : Vector3.t) : t :=
  mk (Vector3.min (min b) p) (Vector3.max (max b) p).

Definition isEmpty (b : t) : bool :=
  Num.ltb (Vector3.x (max b)) (Vector3.x (min b))
  || Num.ltb (Vector3.y (max b)) (Vector3.y (min b))
  || Num.ltb (Vector3.z (max b)) (Vector3.z (min b)).

Definition getCenter (b : t) : Vector3.t :=
  if isEmpty b then Vector3.zero
  else Vector3.multiplyScalar (Vector3.add (min b) (max b)) (Fin (1 # 2)).

Definition getSize (b : t) : Vector3.t :=
  if isEmpty b then Vector3.zero else Vector3.subVectors (max b) (min b).

(** [box.getBoundingSphere(target)]. *)
Definition getBoundingSphere (rt : Q -> Q) (b : t) : Sphere.t :=
  if isEmpty b then Sphere.makeEmpty
  else Sphere.mk (getCenter b)
                 (Num.mul (Vector3.length rt (getSize b)) (Fin (1 # 2))).

End Box3.

(** ** JavaScript strings

    A string is a sequence of code units below 256 (Latin-1). *)

Module Str.

(** Truthiness of a string: the empty string is falsy. *)
Definition truthy (s : string) : bool :=
  match s with EmptyString => false | _ => true end.

(** White space as [String.prototype.trim] sees it, below 256: tab, line
    feed, vertical tab, form feed, carriage return, space and the
    no-break space. *)
Definition isWhiteSpace (c : ascii) : bool :=
  let n := nat_of_ascii c in
  ((9 <=? n)%nat && (n <=? 13)%nat) || (n =? 32)%nat || (n =? 160)%nat.

Fixpoint trimStart (s : string) : string :=
  match s with
  | String c s' => if isWhiteSpace c then trimStart s' else s
  | EmptyString => EmptyString
  end.

Fixpoint trimEnd (s : string) : string :=
  match s with
  | EmptyString => EmptyString
  | String c s' =>
      match trimEnd s' with
      | EmptyString =>
          if isWhiteSpace c then EmptyString else String c EmptyString
      | r => String c r
      end
  end.

Definition trim (s : string) : string := trimEnd (trimStart s).

(** [toLowerCase] on one code unit: A-Z, and the Latin-1 capitals
    (192-222 but the multiplication sign 215), move up by 32. *)
Definition lowerChar (c : ascii) : ascii :=
  let n := nat_of_ascii c in
  if ((65 <=? n)%nat && (n <=? 90)%nat)
     || ((192 <=? n)%nat && (n <=? 222)%nat && negb (n =? 215)%nat)
  then ascii_of_nat (n + 32) else c.

Fixpoint toLowerCase (s : string) : string :=
  match s with
  | EmptyString => EmptyString
  | String c s' => String (lowerChar c) (toLowerCase s')
  end.

(** [s.replace(/^\//, empty)]: drop one leading slash. *)
Definition dropLeadingSlash (s : string) : string :=
  match s with
  | String "/" s' => s'
  | _ => s
  end.

(** [s.replace(/\/$/, empty)]: drop one trailing slash. *)
Fixpoint dropTrailingSlash (s : string) : string :=
  match s with
  | EmptyString => EmptyString
  | String "/" EmptyString => EmptyString
  | String c s' => String c (dropTrailingSlash s')
  end.

End Str.

(** ** THREE.Object3D

    A node of the scene graph: a name, visibility, a unique id, whether it
    is a [THREE.Mesh], its local translation, the vertices of its geometry
    (none for a node without geometry) and its children, in declared
    order. *)

Module Object3D.

#[local] Unset Elimination Schemes.

Inductive t : Type :=
  mk { name : string;
       visible : bool;
       uuid : string;
       isMesh : bool;
       position : Vector3.t;
       geometry : list Vector3.t;
       children : list t }.

#[local] Set Elimination Schemes.

(** [new THREE.Group()] holding [cs]. *)
Definition group (cs : list t) : t :=
  mk EmptyString true EmptyString false Vector3.zero [] cs.

(** The translation of [o.matrixWorld], from the one of its parent. *)
Definition matrixWorld (parentWorld : Vector3.t) (o : t) : Vector3.t :=
  Vector3.add parentWorld (position o).

(** [o.traverse(f)] visits [o], then its children's subtrees in order.
    Every visited node comes with its parent's world translation, which
    is what the engine caches on the node as its world matrix. *)
Fixpoint traverse (parentWorld : Vector3.t) (o : t)
  : list (Vector3.t * t) :=
  match o with
  | mk _ _ _ _ pos _ cs =>
      (parentWorld, o)
      :: (fix go (l : list t) : list (Vector3.t * t) :=
            match l with
            | [] => []
            | c :: l' => traverse (Vector3.add parentWorld pos) c ++ go l'
            end) cs
  end.

(** [box.expandByObject(o)]: refresh the node's world matrix from its
    parent's, add every vertex in world space, then the children. *)
Fixpoint expandByObject (b : Box3.t) (parentWorld : Vector3.t) (o : t)
  : Box3.t :=
  match o with
  | mk _ _ _ _ pos geo cs =>
      let w := Vector3.add parentWorld pos in
      (fix go (l : list t) (b : Box3.t) : Box3.t :=
         match l with
         | [] => b
         | c :: l' => go l' (expandByObject b w c)
         end) cs
        (fold_left (fun b v => Box3.expandByPoint b (Vector3.add v w)) geo b)
  end.

(** [new THREE.Box3().setFromObject(o)]. *)
Definition setFromObject (parentWorld : Vector3.t) (o : t) : Box3.t :=
  expandByObject Box3.makeEmpty parentWorld o.

(** The vertices under [o], in world space, in the order
    [expandByObject] meets them. *)
Fixpoint worldPoints (parentWorld : Vector3.t) (o : t) : list Vector3.t :=
  match o with
  | mk _ _ _ _ pos geo cs =>
      let w := Vector3.add parentWorld pos in
      List.map (fun v => Vector3.add v w) geo
      ++ List.concat (List.map (worldPoints w) cs)
  end.

(** The number of vertices under [o]. *)
Fixpoint vertexCount (o : t) : nat :=
  match o with
  | mk _ _ _ _ _ geo cs =>
      (length geo + list_sum (List.map vertexCount cs))%nat
  end.

(** Every translation and every vertex under [o] is finite. *)
Fixpoint allFinite (o : t) : bool :=
  match o with
  | mk _ _ _ _ pos geo cs =>
      Vector3.isFinite pos && List.forallb Vector3.isFinite geo
      && List.forallb allFinite cs
  end.

End Object3D.

(** ** The page's records *)

Module BoundsInfo.
Record t : Type := mk { radius : num; center : Vector3.t }.
End BoundsInfo.

Module Marker.
Record t : Type :=
  mk { id : string;
       name : string;
       center : Vector3.t;
       radius : num;
       description : option string;
       image : option string }.
End Marker.

(** Truthiness of an optional string property: [undefined] and the empty
    string are falsy. *)
Definition truthy_opt (s : option string) : bool :=
  match s with
  | Some s' => Str.truthy s'
  | None => false
  end.

(** The orbit controls, as far as the page reads and writes them. *)
Module OrbitControls.
Record t : Type := mk { target : Vector3.t; minDistance : num }.
End OrbitControls.

(** A continuation is a closure of the caller; it is identified by a
    number, and calling it is recorded, not interpreted. *)
Definition Callback : Type := nat.

(** The record [animRef.current] holds while a flight is in progress. *)
Module Flight.
Record record : Type :=
  mk { startPos : Vector3.t;
       startTarget : Vector3.t;
       endPos : Vector3.t;
       endTarget : Vector3.t;
       t : num;
       d : num;
       onComplete : option Callback }.

Definition set_t (a : record) (t' : num) : record :=
  mk (startPos a) (startTarget a) (endPos a) (endTarget a) t' (d a)
     (onComplete a).
End Flight.

(** What [useFlyTo] reads and writes: the camera position, the orbit
    controls behind [controlsRef] (if mounted), the flight record behind
    [animRef], and the continuations called so far, each with the camera
    position at the time of the call. *)
Module World.
Record t : Type :=
  mk { camera_position : Vector3.t;
       controlsRef : option OrbitControls.t;
       animRef : option Flight.record;
       called : list (Callback * Vector3.t) }.
End World.

Section Page.

(** [Math.sqrt] on the non-negative rationals. *)
Variable Math_sqrt : Q -> Q.

(** [process.env.NEXT_PUBLIC_BASE_PATH], [None] when it is not set. *)
Variable BASE_PATH : option string.

(** [buildPublicUrl]: an absolute path under the base path, if any. *)
Definition buildPublicUrl (relativePath : string) : string :=
  let sanitizedRelative := Str.dropLeadingSlash relativePath in
  match BASE_PATH with
  | Some base =>
      if Str.truthy base && negb (String.eqb base "/")
      then let sanitizedBase := Str.dropTrailingSlash base in
           sanitizedBase +:+ "/" +:+ sanitizedRelative
      else "/" +:+ sanitizedRelative
  | None => "/" +:+ sanitizedRelative
  end.

(** [computeObjectSphere(obj)]; [obj] comes with its parent's world
    translation. *)
Definition computeObjectSphere (obj : Vector3.t * Object3D.t)
  : option Sphere.t :=
  let box := Object3D.setFromObject obj.1 obj.2 in
  if negb (Num.isFinite (Vector3.x (Box3.min box)))
     || negb (Num.isFinite (Vector3.x (Box3.max box)))
  then None
  else let sphere := Box3.getBoundingSphere Math_sqrt box in
       Some (Sphere.mk (Sphere.center sphere) (Sphere.radius sphere)).

(** *** HotelModel: the layout effect *)

(** Lines 73-79: the bounds of a clone of the scene, held by a fresh
    group that has no parent (its world matrix is the identity). *)
Definition cloneBox (scene : Object3D.t) : Box3.t :=
  let temp := Object3D.group [scene] in
  Object3D.setFromObject Vector3.zero temp.

(** Line 82: [groupRef.current.position.set(0, -minY, 0)]. *)
Definition groundOffset (scene : Object3D.t) : Vector3.t :=
  let minY := Vector3.y (Box3.min (cloneBox scene)) in
  Vector3.mk (Fin 0) (Num.neg minY) (Fin 0).

(** Lines 88-98: the named, visible children of the scene or, when there
    is none, every named, visible mesh of the tree.  The group that holds
    the scene sits under the canvas root, so its world translation is its
    position. *)
Definition gatherCandidates (groupPosition : Vector3.t)
    (scene : Object3D.t) : list (Vector3.t * Object3D.t) :=
  let candidates :=
    (fun c => (Object3D.matrixWorld groupPosition scene, c))
      <$> List.filter
            (fun c => Str.truthy (Object3D.name c) && Object3D.visible c)
            (Object3D.children scene) in
  if (length candidates =? 0)%nat
  then List.filter
         (fun o => Str.truthy (Object3D.name o.2) && Object3D.visible o.2
                   && Object3D.isMesh o.2)
         (Object3D.traverse groupPosition scene)
  else candidates.

(** Line 108: [obj.name?.trim() || "Group"]. *)
Definition safeNameOf (obj : Object3D.t) : string :=
  let trimmed := Str.trim (Object3D.name obj) in
  if Str.truthy trimmed then trimmed else "Group".

(** Lines 112-119: the marker pushed for an accepted candidate. *)
Definition newMarker (obj : Object3D.t) (safeName : string)
    (center : Vector3.t) (radius : num) : Marker.t :=
  Marker.mk (Object3D.uuid obj) safeName center radius
            (Some ("Information about " +:+ safeName +:+ "."))
            (Some (buildPublicUrl "next.svg")).

(** Lines 100-121: the loop over the candidates, from the markers and
    the used names collected so far. *)
Fixpoint discoverLoop (candidates : list (Vector3.t * Object3D.t))
    (markers : list Marker.t) (usedNames : gset string)
  : list Marker.t :=
  match candidates with
  | [] => markers
  | obj :: rest =>
      match computeObjectSphere obj with
      | None => discoverLoop rest markers usedNames
      | Some sphereInfo =>
          let center := Sphere.center sphereInfo in
          let radius := Sphere.radius sphereInfo in
          if negb (Num.isFinite radius) || Num.leb radius (Fin (1 # 50))
          then discoverLoop rest markers usedNames
          else
            let safeName := safeNameOf obj.2 in
            if decide (safeName ∈ usedNames)
            then discoverLoop rest markers usedNames
            else
              let markers' :=
                markers ++ [newMarker obj.2 safeName center radius] in
              if (20 <=? length markers')%nat then markers'
              else discoverLoop rest markers' ({[safeName]} ∪ usedNames)
      end
  end.

Definition overrideName : string := "Power Aisle".

Definition overrideImage : string := buildPublicUrl "markers/power-aisle.png".

(** Lines 131-135: what the override writes into its target. *)
Definition overrideTarget (target : Marker.t) : Marker.t :=
  Marker.mk (Marker.id target) overrideName
            (Marker.center target) (Marker.radius target)
            (if negb (truthy_opt (Marker.description target))
             then Some "High-capacity aisle for main power distribution."
             else Marker.description target)
            (Some overrideImage).

Definition isOverrideMatch (m : Marker.t) : Prop :=
  Str.toLowerCase (Marker.name m) = Str.toLowerCase overrideName.

(** Lines 126-129: the index of the target in the list: the first match
    or, without a match, the first marker. *)
Definition overrideIndex (markers : list Marker.t) : option nat :=
  match list_find isOverrideMatch markers with
  | Some (i, _) => Some i
  | None => if (0 <? length markers)%nat then Some 0%nat else None
  end.

(** Lines 123-136: the target is an element of the list, so writing
    into it updates the list in place. *)
Definition applyOverride (markers : list Marker.t) : list Marker.t :=
  match overrideIndex markers with
  | Some i => alter overrideTarget i markers
  | None => markers
  end.

(** What one run of the layout effect leaves behind: the position of the
    group, and what [onBounds] and [onMarkers] receive. *)
Record EffectResult : Type :=
  mkEffect { groupPosition : Vector3.t;
             onBounds : BoundsInfo.t;
             onMarkers : list Marker.t }.

(** Lines 76-78: the bounding sphere of the clone. *)
Definition cloneSphere (scene : Object3D.t) : Sphere.t :=
  Box3.getBoundingSphere Math_sqrt (cloneBox scene).

(** Lines 88-121: the markers the loop accepts, before the override. *)
Definition acceptedMarkers (scene : Object3D.t) : list Marker.t :=
  discoverLoop (gatherCandidates (groundOffset scene) scene) [] ∅.

(** Lines 88-136: the list handed to [onMarkers]. *)
Definition discover (scene : Object3D.t) : list Marker.t :=
  applyOverride (acceptedMarkers scene).

(** The layout effect of [HotelModel], lines 67-140.  [groupRef] holds
    the group's position when the group is mounted. *)
Definition layoutEffect (groupRef : option Vector3.t)
    (scene : Object3D.t) : option EffectResult :=
  match groupRef with
  | None => None
  | Some _ =>
      let sphere := cloneSphere scene in
      Some (mkEffect (groundOffset scene)
              (BoundsInfo.mk (Sphere.radius sphere)
                             (Vector3.setY (Sphere.center sphere) (Fin 0)))
              (discover scene))
  end.

(** The world-space bounds of the mounted group once the effect has run:
    the scene under the group's new position. *)
Definition worldBoxAfter (r : EffectResult) (scene : Object3D.t) : Box3.t :=
  Object3D.setFromObject (groupPosition r) scene.

(** *** The loop, read as a pipeline

    The candidates whose sphere passes the filter, the first of each
    name among them, and the first twenty of those. *)

Definition sphereOk (obj : Vector3.t * Object3D.t) : option Sphere.t :=
  match computeObjectSphere obj with
  | Some s =>
      if negb (Num.isFinite (Sphere.radius s))
         || Num.leb (Sphere.radius s) (Fin (1 # 50))
      then None else Some s
  | None => None
  end.

Definition candidateMarker (obj : Vector3.t * Object3D.t)
  : option Marker.t :=
  (fun s => newMarker obj.2 (safeNameOf obj.2)
              (Sphere.center s) (Sphere.radius s)) <$> sphereOk obj.

Fixpoint firstOfName (used : gset string)
    (l : list (Vector3.t * Object3D.t)) : list (Vector3.t * Object3D.t) :=
  match l with
  | [] => []
  | obj :: l' =>
      if decide (safeNameOf obj.2 ∈ used) then firstOfName used l'
      else obj :: firstOfName ({[safeNameOf obj.2]} ∪ used) l'
  end.

Definition acceptedCandidates (candidates : list (Vector3.t * Object3D.t))
  : list (Vector3.t * Object3D.t) :=
  take 20 (firstOfName ∅
             (List.filter (fun obj => bool_decide (is_Some (sphereOk obj)))
                          candidates)).

(** *** useFlyTo *)

(** [controls.update()]: the orbit controls re-derive the camera from
    their target and limits; the position they leave is theirs to
    choose. *)
Variable controls_update : OrbitControls.t -> Vector3.t -> Vector3.t.

(** Line 168: the smoothstep ease [k * k * (3 - 2 * k)]. *)
Definition ease (k : num) : num :=
  Num.mul (Num.mul k k) (Num.sub (Fin 3) (Num.mul (Fin 2) k)).

(** Lines 163-186: the frame callback. *)
Definition advance (delta : num) (w : World.t) : World.t :=
  match World.animRef w with
  | None => w
  | Some a =>
      let t' := Num.min (Num.add (Flight.t a) delta) (Flight.d a) in
      let a := Flight.set_t a t' in
      let k := Num.div (Flight.t a) (Flight.d a) in
      let e := ease k in
      let pos :=
        Vector3.lerpVectors (Flight.startPos a) (Flight.endPos a) e in
      let tgt :=
        Vector3.lerpVectors (Flight.startTarget a) (Flight.endTarget a) e in
      let controls' :=
        (fun c => OrbitControls.mk tgt (OrbitControls.minDistance c))
          <$> World.controlsRef w in
      let camera' :=
        match controls' with
        | Some c => controls_update c pos
        | None => pos
        end in
      if Num.geb (Flight.t a) (Flight.d a)
      then World.mk camera' controls' None
             (World.called w
              ++ match Flight.onComplete a with
                 | Some cb => [(cb, camera')]
                 | None => []
                 end)
      else World.mk camera' controls' (Some a) (World.called w)
  end.

(** Lines 189-192: the viewing direction, with its fallback. *)
Definition flyDirection (w : World.t) : Vector3.t :=
  let target :=
    match World.controlsRef w with
    | Some c => OrbitControls.target c
    | None => Vector3.zero
    end in
  let dir :=
    Vector3.normalize Math_sqrt
      (Vector3.subVectors (World.camera_position w) target) in
  if negb (Num.isFinite (Vector3.length Math_sqrt dir))
     || Num.eqb (Vector3.length Math_sqrt dir) (Fin 0)
  then Vector3.normalize Math_sqrt (Vector3.mk (Fin 1) (Fin (1 # 2)) (Fin 1))
  else dir.

(** Line 194: [controlsRef.current?.minDistance ?? 0]. *)
Definition minD (w : World.t) : num :=
  match World.controlsRef w with
  | Some c => OrbitControls.minDistance c
  | None => Fin 0
  end.

(** Lines 188-209: [flyTo(endTarget, distance, duration = 1.2,
    onComplete)]; [duration] is [None] when the caller leaves it out. *)
Definition flyTo (endTarget : Vector3.t) (distance : num)
    (duration : option num) (onComplete : option Callback)
    (w : World.t) : World.t :=
  let duration := default (Fin (6 # 5)) duration in
  let dir := flyDirection w in
  let endDistance := Num.max distance (Num.add (minD w) (Fin (1 # 100))) in
  let endPos := Vector3.addScaledVector endTarget dir endDistance in
  let startPos := World.camera_position w in
  let startTarget :=
    match World.controlsRef w with
    | Some c => OrbitControls.target c
    | None => Vector3.zero
    end in
  World.mk (World.camera_position w) (World.controlsRef w)
    (Some (Flight.mk startPos startTarget endPos endTarget (Fin 0)
             (Num.max (Fin (1 # 5)) duration) onComplete))
    (World.called w).

(** A run of the controller: frames and flight requests, in order. *)
Inductive Op : Type :=
  | Advance (delta : num)
  | FlyTo (endTarget : Vector3.t) (distance : num)
          (duration : option num) (onComplete : option Callback).

Definition step (w : World.t) (op : Op) : World.t :=
  match op with
  | Advance delta => advance delta w
  | FlyTo endTarget distance duration onComplete =>
      flyTo endTarget distance duration onComplete w
  end.

Definition run (ops : list Op) (w : World.t) : World.t :=
  fold_left step ops w.

End Page.

(** ** A concrete square root

    [sqrt6 q] is the square root of [q] cut to six decimals over the
    denominator of [q]; it is exact on the squares of rationals. *)
Definition sqrt6 (q : Q) : Q :=
  Z.sqrt (Qnum q * Z.pos (Qden q) * 10 ^ 12) # (Qden q * 10 ^ 6).

(** ** The rest of the page *)

Section PageRest.

Variable Math_sqrt : Q -> Q.

Variable BASE_PATH : option string.

(** Lines 14-21, [buildAssetUrl]: the path under the base path, if any,
    and otherwise the relative path itself. *)
Definition buildAssetUrl (relativePath : string) : string :=
  let sanitizedRelative := Str.dropLeadingSlash relativePath in
  match BASE_PATH with
  | Some base =>
      if Str.truthy base && negb (String.eqb base "/")
      then let sanitizedBase := Str.dropTrailingSlash base in
           sanitizedBase +:+ "/" +:+ sanitizedRelative
      else sanitizedRelative
  | None => sanitizedRelative
  end.

(** Line 34. *)
Definition MODEL_URL : string := buildAssetUrl "models/hotel.glb".

(** Lines 253-256: the bounds [Scene] starts with. *)
Definition initialBounds : BoundsInfo.t := BoundsInfo.mk (Fin 5) Vector3.zero.

(** Lines 290-291: the fog distances. *)
Definition fogNear (bounds : BoundsInfo.t) : num :=
  Num.max (Num.mul (BoundsInfo.radius bounds) (Fin 2)) (Fin 10).

Definition fogFar (bounds : BoundsInfo.t) : num :=
  Num.max (Num.mul (BoundsInfo.radius bounds) (Fin 16)) (Fin 160).

(** Lines 343-345: the distance limits handed to the orbit controls. *)
Definition orbitMinDistance (bounds : BoundsInfo.t) : num :=
  Num.max (Num.mul (BoundsInfo.radius bounds) (Fin (2 # 5))) (Fin (1 # 2)).


(** Lines 273-274: the distance [focusMarker] asks for. *)
Definition focusDistance (bounds : BoundsInfo.t) (m : Marker.t) : num :=
  let desired :=
    Num.max (Num.mul (Marker.radius m) (Fin (9 # 4))) (Fin (4 # 5)) in
  Num.min desired (Num.mul (BoundsInfo.radius bounds) (Fin (9 # 10))).

(** Lines 269-278, [focusMarker]: select the marker, then fly to it in
    one time unit, without continuation.  The result is the selected id
    and the world. *)
Definition focusMarker (bounds : BoundsInfo.t) (m : Marker.t)
    (w : World.t) : option string * World.t :=
  let selectedId := Some (Marker.id m) in
  let dist := focusDistance bounds m in
  (selectedId, flyTo Math_sqrt (Marker.center m) dist (Some (Fin 1)) None w).

End PageRest.

(** Lines 218-221, the frame callback of [Marker3D]: the scale moves
    towards 1.3 while the pointer is over the marker and towards 1
    otherwise, by the share [Math.min(1, delta * 8)] of what is left. *)
Definition markerFrame (hover : bool) (delta : num) (scale : num) : num :=
  let target := if hover then Fin (13 # 10) else Fin 1 in
  Num.add scale
    (Num.mul (Num.sub target scale) (Num.min (Fin 1) (Num.mul delta (Fin 8)))).

(** What a marker goes through: the pointer enters, leaves, or a frame
    passes (lines 218-227). *)
Inductive MarkerEvent : Type :=
  | PointerOver
  | PointerOut
  | Frame (delta : num).

(** [hoverRef] and [scaleRef] of one marker. *)
Definition markerStep (st : bool * num) (ev : MarkerEvent) : bool * num :=
  match ev with
  | PointerOver => (true, st.2)
  | PointerOut => (false, st.2)
  | Frame delta => (st.1, markerFrame st.1 delta st.2)
  end.

(** Lines 216-217: a marker starts unhovered, at scale 1. *)
Definition markerStart : bool * num := (false, Fin 1).

(** Line 356: [markers.find((m) => m.id === selectedId) || null]. *)
Definition selected (markers : list Marker.t) (selectedId : option string)
  : option Marker.t :=
  match selectedId with
  | Some i => snd <$> list_find (fun m => Marker.id m = i) markers
  | None => None
  end.

(** ** The build configuration

    [next.config.ts], lines 3-7: [basePath] and [assetPrefix] are both
    set to the base path when it is set and not empty, and left out
    otherwise. *)
Module NextConfig.
Record t : Type :=
  mk { basePath : option string; assetPrefix : option string }.
End NextConfig.

Definition nextConfig (basePath : option string) : NextConfig.t :=
  if truthy_opt basePath
  then NextConfig.mk basePath basePath
  else NextConfig.mk None None.

(** ** Notions the statements use *)

(** Structural induction over a scene graph, with the hypothesis on every
    child. *)
Section Object3D_induction.

Variable P : Object3D.t -> Prop.

Hypothesis node :
  forall n v u i pos geo cs,
    Forall P cs -> P (Object3D.mk n v u i pos geo cs).

Fixpoint Object3D_ind' (o : Object3D.t) : P o :=
  match o with
  | Object3D.mk n v u i pos geo cs =>
      node n v u i pos geo cs
        ((fix go (l : list Object3D.t) : Forall P l :=
            match l with
            | [] => @List.Forall_nil _ P
            | c :: l' => @List.Forall_cons _ P c l' (Object3D_ind' c) (go l')
            end) cs)
  end.

End Object3D_induction.

(** A run of frames with finite deltas. *)
Definition advances (ds : list Q) : list Op :=
  (fun q => Advance (Fin q)) <$> ds.

(** The continuation a world still holds, and those a run hands in. *)
Definition pending (w : World.t) : list Callback :=
  match World.animRef w with
  | Some a => option_list (Flight.onComplete a)
  | None => []
  end.

Definition requested (ops : list Op) : list Callback :=
  flat_map (fun op => match op with
                      | FlyTo _ _ _ onComplete => option_list onComplete
                      | Advance _ => []
                      end) ops.

(** A name that is not empty but trims to the empty string. *)
Definition whitespaceOnly (s : string) : bool :=
  Str.truthy s && negb (Str.truthy (Str.trim s)).

(** A string that starts with a slash. *)
Definition startsWithSlash (s : string) : bool :=
  match s with String "/" _ => true | _ => false end.

(** The test both URL builders make on the base path. *)
Definition usableBase (bp : option string) : bool :=
  match bp with
  | Some b => Str.truthy b && negb (String.eqb b "/")
  | None => false
  end.

(** Line 89: a node that has a name and is visible. *)
Definition eligible (c : Object3D.t) : bool :=
  Str.truthy (Object3D.name c) && Object3D.visible c.

(** Line 190: [controlsRef.current?.target ?? new THREE.Vector3(0, 0, 0)]. *)
Definition orbitTarget (w : World.t) : Vector3.t :=
  match World.controlsRef w with
  | Some c => OrbitControls.target c
  | None => Vector3.zero
  end.

(** A run of frames with any deltas. *)
Definition frames (deltas : list num) : list Op := Advance <$> deltas.

(** A pointer event, or a frame with a finite delta that is not
    negative. *)
Definition gentle (ev : MarkerEvent) : Prop :=
  match ev with
  | Frame (Fin d) => 0 <= d
  | Frame _ => False
  | _ => True
  end.

(** The scale a marker is heading for. *)
Definition markerTarget (hover : bool) : Q := if hover then 13 # 10 else 1.

(** ** Example scenes *)

Definition vecQ (a b c : Q) : Vector3.t := Vector3.mk (Fin a) (Fin b) (Fin c).

(** A visible mesh at the origin of its parent, spanning the cube from
    [lo] to [hi]. *)
Definition cubeMesh (name uuid : string) (lo hi : Q) : Object3D.t :=
  Object3D.mk name true uuid true Vector3.zero
    [vecQ lo lo lo; vecQ hi hi hi] [].

Definition sceneOf (cs : list Object3D.t) : Object3D.t :=
  Object3D.mk "Scene" true "scene" false Vector3.zero [] cs.

(** Two nodes whose names differ only by case. *)
Definition sceneTwoAisles : Object3D.t :=
  sceneOf [cubeMesh "power aisle" "a" 1 3; cubeMesh "Power Aisle" "b" 0 2].

(** A node whose name is two spaces, and a scene that starts with it. *)
Definition blankMesh : Object3D.t := cubeMesh "  " "blank" 0 2.

Definition sceneBlank : Object3D.t :=
  sceneOf [blankMesh; cubeMesh "Lobby" "lobby" 0 2].

(** A raised room: its geometry spans the heights 1 to 3. *)
Definition sceneRaised : Object3D.t :=
  sceneOf [cubeMesh "Lobby" "lobby" 1 3].

(** An asset without any geometry. *)
Definition sceneNoGeometry : Object3D.t := sceneOf [].

(** The camera of the page at (2, 1, 2), no orbit controls mounted, no
    flight in progress. *)
Definition worldAtRest : World.t := World.mk (vecQ 2 1 2) None None [].

(** Orbit controls whose update leaves the camera where it is. *)
Definition update_in_place (c : OrbitControls.t) (p : Vector3.t)
  : Vector3.t := p.

(** A visible mesh whose geometry is the segment from the origin to
    (len, 0, 0); its bounding sphere has radius len / 2. *)
Definition segmentMesh (name uuid : string) (len : Q) : Object3D.t :=
  Object3D.mk name true uuid true Vector3.zero
    [vecQ 0 0 0; vecQ len 0 0] [].

(** Nodes "Lobby" (radius 2), "Lobby" again (radius 1.5) and "PowerRoom"
    (radius 0.01). *)
Definition sceneLobby : Object3D.t :=
  sceneOf [segmentMesh "Lobby" "lobby-1" 4;
           segmentMesh "Lobby" "lobby-2" 3;
           segmentMesh "PowerRoom" "power-room" (1 # 50)].

(** The camera where the page creates it, at (8, 6, 8), with orbit
    controls looking at the origin. *)
Definition worldOfPage : World.t :=
  World.mk (vecQ 8 6 8)
    (Some (OrbitControls.mk Vector3.zero (Fin (1 # 2)))) None [].

(** The camera on the orbit target, which is the origin while no
    controls are mounted. *)
Definition worldAtTarget : World.t := World.mk Vector3.zero None None [].

(** The page with the controls [Scene] mounts for its initial bounds. *)
Definition worldOfScene : World.t :=
  World.mk (vecQ 8 6 8)
    (Some (OrbitControls.mk Vector3.zero (orbitMinDistance initialBounds)))
    None [].

(** Two markers of the panel. *)
Definition markerLobby : Marker.t :=
  Marker.mk "lobby-1" "Lobby" (vecQ 2 0 0) (Fin 2)
    (Some "Information about Lobby.") (Some "/next.svg").

Definition markerBar : Marker.t :=
  Marker.mk "bar-1" "Bar" (vecQ 0 0 3) (Fin (1 # 2))
    (Some "Information about Bar.") (Some "/next.svg").

(** The pointer enters a marker, a short frame passes, the pointer
    leaves, a long frame passes. *)
Definition hoverThenLeave : list MarkerEvent :=
  [PointerOver; Frame (Fin (1 # 16)); PointerOut; Frame (Fin 1)].

(** ** Scene nodes with their full pose

    The engine's side of bounds normalization, for nodes that carry a
    position, a rotation (a quaternion) and a scale, as [THREE.Object3D]
    does: [Matrix4.compose], [Matrix4.multiplyMatrices],
    [Vector3.applyMatrix4], [Box3.applyMatrix4], [Box3.union] and
    [Box3.expandByObject] as three.js computes them, over the numbers of
    the first reading. *)
Module Posed.

Module Quaternion.
Record t : Type := mk { x : num; y : num; z : num; w : num }.
Definition identity : t := mk (Fin 0) (Fin 0) (Fin 0) (Fin 1).
End Quaternion.

(** [THREE.Matrix4]; [nij] is the entry of row [i] and column [j], which
    three.js keeps at [elements[4 * (j - 1) + (i - 1)]]. *)
Module Matrix4.

Record t : Type :=
  mk { n11 : num; n12 : num; n13 : num; n14 : num;
       n21 : num; n22 : num; n23 : num; n24 : num;
       n31 : num; n32 : num; n33 : num; n34 : num;
       n41 : num; n42 : num; n43 : num; n44 : num }.

(** [m.compose(position, quaternion, scale)], what [updateMatrix] calls. *)
Definition compose (position : Vector3.t) (q : Quaternion.t)
    (scale : Vector3.t) : t :=
  let x := Quaternion.x q in
  let y := Quaternion.y q in
  let z := Quaternion.z q in
  let w := Quaternion.w q in
  let x2 := Num.add x x in
  let y2 := Num.add y y in
  let z2 := Num.add z z in
  let xx := Num.mul x x2 in
  let xy := Num.mul x y2 in
  let xz := Num.mul x z2 in
  let yy := Num.mul y y2 in
  let yz := Num.mul y z2 in
  let zz := Num.mul z z2 in
  let wx := Num.mul w x2 in
  let wy := Num.mul w y2 in
  let wz := Num.mul w z2 in
  let sx := Vector3.x scale in
  let sy := Vector3.y scale in
  let sz := Vector3.z scale in
  mk (Num.mul (Num.sub (Fin 1) (Num.add yy zz)) sx)
     (Num.mul (Num.sub xy wz) sy)
     (Num.mul (Num.add xz wy) sz)
     (Vector3.x position)
     (Num.mul (Num.add xy wz) sx)
     (Num.mul (Num.sub (Fin 1) (Num.add xx zz)) sy)
     (Num.mul (Num.sub yz wx) sz)
     (Vector3.y position)
     (Num.mul (Num.sub xz wy) sx)
     (Num.mul (Num.add yz wx) sy)
     (Num.mul (Num.sub (Fin 1) (Num.add xx yy)) sz)
     (Vector3.z position)
     (Fin 0) (Fin 0) (Fin 0) (Fin 1).

(** One entry of a product: [a1 * b1 + a2 * b2 + a3 * b3 + a4 * b4]. *)
Definition dot4 (a1 a2 a3 a4 b1 b2 b3 b4 : num) : num :=
  Num.add (Num.add (Num.add (Num.mul a1 b1) (Num.mul a2 b2)) (Num.mul a3 b3))
          (Num.mul a4 b4).

(** [m.multiplyMatrices(a, b)]. *)
Definition multiplyMatrices (a b : t) : t :=
  mk (dot4 (n11 a) (n12 a) (n13 a) (n14 a) (n11 b) (n21 b) (n31 b) (n41 b))
     (dot4 (n11 a) (n12 a) (n13 a) (n14 a) (n12 b) (n22 b) (n32 b) (n42 b))
     (dot4 (n11 a) (n12 a) (n13 a) (n14 a) (n13 b) (n23 b) (n33 b) (n43 b))
     (dot4 (n11 a) (n12 a) (n13 a) (n14 a) (n14 b) (n24 b) (n34 b) (n44 b))
     (dot4 (n21 a) (n22 a) (n23 a) (n24 a) (n11 b) (n21 b) (n31 b) (n41 b))
     (dot4 (n21 a) (n22 a) (n23 a) (n24 a) (n12 b) (n22 b) (n32 b) (n42 b))
     (dot4 (n21 a) (n22 a) (n23 a) (n24 a) (n13 b) (n23 b) (n33 b) (n43 b))
     (dot4 (n21 a) (n22 a) (n23 a) (n24 a) (n14 b) (n24 b) (n34 b) (n44 b))
     (dot4 (n31 a) (n32 a) (n33 a) (n34 a) (n11 b) (n21 b) (n31 b) (n41 b))
     (dot4 (n31 a) (n32 a) (n33 a) (n34 a) (n12 b) (n22 b) (n32 b) (n42 b))
     (dot4 (n31 a) (n32 a) (n33 a) (n34 a) (n13 b) (n23 b) (n33 b) (n43 b))
     (dot4 (n31 a) (n32 a) (n33 a) (n34 a) (n14 b) (n24 b) (n34 b) (n44 b))
     (dot4 (n41 a) (n42 a) (n43 a) (n44 a) (n11 b) (n21 b) (n31 b) (n41 b))
     (dot4 (n41 a) (n42 a) (n43 a) (n44 a) (n12 b) (n22 b) (n32 b) (n42 b))
     (dot4 (n41 a) (n42 a) (n43 a) (n44 a) (n13 b) (n23 b) (n33 b) (n43 b))
     (dot4 (n41 a) (n42 a) (n43 a) (n44 a) (n14 b) (n24 b) (n34 b) (n44 b)).

End Matrix4.

(** [v.applyMatrix4(m)], with its division by the fourth coordinate. *)
Definition applyMatrix4 (v : Vector3.t) (m : Matrix4.t) : Vector3.t :=
  let x := Vector3.x v in
  let y := Vector3.y v in
  let z := Vector3.z v in
  let row (a b c d : num) : num :=
    Num.add (Num.add (Num.add (Num.mul a x) (Num.mul b y)) (Num.mul c z)) d in
  let w :=
    Num.div (Fin 1)
      (row (Matrix4.n41 m) (Matrix4.n42 m) (Matrix4.n43 m) (Matrix4.n44 m)) in
  Vector3.mk
    (Num.mul
       (row (Matrix4.n11 m) (Matrix4.n12 m) (Matrix4.n13 m) (Matrix4.n14 m)) w)
    (Num.mul
       (row (Matrix4.n21 m) (Matrix4.n22 m) (Matrix4.n23 m) (Matrix4.n24 m)) w)
    (Num.mul
       (row (Matrix4.n31 m) (Matrix4.n32 m) (Matrix4.n33 m) (Matrix4.n34 m)) w).

(** [box.setFromPoints(points)]. *)
Definition setFromPoints (points : list Vector3.t) : Box3.t :=
  fold_left Box3.expandByPoint points Box3.makeEmpty.

(** [box.applyMatrix4(m)]: an empty box stays as it is, any other box
    becomes the box of its eight transformed corners. *)
Definition boxApplyMatrix4 (b : Box3.t) (m : Matrix4.t) : Box3.t :=
  if Box3.isEmpty b then b
  else
    let lo := Box3.min b in
    let hi := Box3.max b in
    let corner (px py pz : Vector3.t) : Vector3.t :=
      applyMatrix4
        (Vector3.mk (Vector3.x px) (Vector3.y py) (Vector3.z pz)) m in
    setFromPoints
      [corner lo lo lo; corner lo lo hi; corner lo hi lo; corner lo hi hi;
       corner hi lo lo; corner hi lo hi; corner hi hi lo; corner hi hi hi].

(** [a.union(b)]. *)
Definition union (a b : Box3.t) : Box3.t :=
  Box3.mk (Vector3.min (Box3.min a) (Box3.min b))
          (Vector3.max (Box3.max a) (Box3.max b)).

(** A node: its position, rotation and scale, the vertices of its
    geometry (none for a node without geometry) and its children. *)
#[local] Unset Elimination Schemes.
Inductive t : Type :=
  mk { position : Vector3.t;
       quaternion : Quaternion.t;
       scale : Vector3.t;
       geometry : list Vector3.t;
       children : list t }.
#[local] Set Elimination Schemes.

(** [new THREE.Group()] holding [cs]. *)
Definition group (cs : list t) : t :=
  mk Vector3.zero Quaternion.identity (Vector3.mk (Fin 1) (Fin 1) (Fin 1))
     [] cs.

(** [o.updateWorldMatrix(false, false)]: the node's matrix is composed
    anew, and its world matrix is that of its parent times its own, or
    its own when it has no parent. *)
Definition matrixWorld (parentWorld : option Matrix4.t) (o : t) : Matrix4.t :=
  let matrix := Matrix4.compose (position o) (quaternion o) (scale o) in
  match parentWorld with
  | Some p => Matrix4.multiplyMatrices p matrix
  | None => matrix
  end.

(** [box.expandByObject(o)]: the bounding box of the node's geometry,
    taken in the node's own coordinates, is moved by the world matrix
    and united with the box; then the children follow. *)
Fixpoint expandByObject (b : Box3.t) (parentWorld : option Matrix4.t) (o : t)
  : Box3.t :=
  let w := matrixWorld parentWorld o in
  let b' :=
    match geometry o with
    | [] => b
    | vs => union b (boxApplyMatrix4 (setFromPoints vs) w)
    end in
  (fix go (l : list t) (b : Box3.t) : Box3.t :=
     match l with
     | [] => b
     | c :: l' => go l' (expandByObject b (Some w) c)
     end) (children o) b'.

(** [new THREE.Box3().setFromObject(o)]. *)
Definition setFromObject (parentWorld : option Matrix4.t) (o : t) : Box3.t :=
  expandByObject Box3.makeEmpty parentWorld o.

(** The vertices under [o] in world space: each vertex moved by the
    world matrix of its node. *)
Fixpoint worldVertices (parentWorld : option Matrix4.t) (o : t)
  : list Vector3.t :=
  let w := matrixWorld parentWorld o in
  List.map (fun v => applyMatrix4 v w) (geometry o)
  ++ (fix go (l : list t) : list Vector3.t :=
        match l with
        | [] => []
        | c :: l' => worldVertices (Some w) c ++ go l'
        end) (children o).

(** Lines 73-79: the box of the clone, held by a fresh group. *)
Definition cloneBox (scene : t) : Box3.t :=
  setFromObject None (group [scene]).

(** Line 82: [groupRef.current.position.set(0, -minY, 0)]. *)
Definition groundOffset (scene : t) : Vector3.t :=
  let minY := Vector3.y (Box3.min (cloneBox scene)) in
  Vector3.mk (Fin 0) (Num.neg minY) (Fin 0).

(** Line 85: the world matrix of the group once it has been moved, under
    the root of the canvas, which sits at the origin. *)
Definition groupWorld (scene : t) : Matrix4.t :=
  matrixWorld (Some (matrixWorld None (group [])))
    (mk (groundOffset scene) Quaternion.identity
        (Vector3.mk (Fin 1) (Fin 1) (Fin 1)) [] [scene]).

(** The heights of the asset's vertices in world space after the effect,
    and the lowest of them. *)
Definition heightsAfter (scene : t) : list num :=
  Vector3.y <$> worldVertices (Some (groupWorld scene)) scene.

Definition lowest (heights : list num) : num :=
  fold_left Num.min heights PInf.

End Posed.

(** A diamond in the plane z = 0, with the corners (1, 0), (-1, 0),
    (0, 1) and (0, -1). *)
Definition diamond : list Vector3.t :=
  [vecQ 1 0 0; vecQ (-1) 0 0; vecQ 0 1 0; vecQ 0 (-1) 0].

(** An asset whose one mesh is the diamond, upright, five units up. *)
Definition raisedDiamond : Posed.t :=
  Posed.group
    [Posed.mk (vecQ 0 5 0) Posed.Quaternion.identity
       (Vector3.mk (Fin 1) (Fin 1) (Fin 1)) diamond []].

(** An asset whose one mesh is the diamond, turned about the z axis by
    the unit quaternion (0, 0, 3/5, 4/5): the corner (1, 0) goes to
    (7/25, 24/25) and the corner (0, 1) to (-24/25, 7/25). *)
Definition turnedDiamond : Posed.t :=
  Posed.group
    [Posed.mk Vector3.zero
       (Posed.Quaternion.mk (Fin 0) (Fin 0) (Fin (3 # 5)) (Fin (4 # 5)))
       (Vector3.mk (Fin 1) (Fin 1) (Fin 1)) diamond []].

(** An asset whose one mesh, upright, has the finite vertex (0, 1, 0)
    and a vertex whose height is [NaN]. *)
Definition meshWithNaN : Posed.t :=
  Posed.group
    [Posed.mk Vector3.zero Posed.Quaternion.identity
       (Vector3.mk (Fin 1) (Fin 1) (Fin 1))
       [vecQ 0 1 0; Vector3.mk (Fin 0) NaN (Fin 0)] []].

(** * The animator in binary64

    The same code read in IEEE-754 double precision, the arithmetic
    JavaScript numbers have: every operation rounds to the nearest double
    and overflows to an infinity.  The claims about the animator that
    rounding or overflow decide are stated over this reading. *)

#[local] Set Warnings "-inexact-float".

Module Float64.

#[local] Open Scope float_scope.

(** The global [isFinite(x)]. *)
Definition isFinite (x : float) : bool := PrimFloat.is_finite x.

(** Truthiness of a number, as in [n || 1]: [0], [-0] and [NaN] are
    falsy. *)
Definition truthy (x : float) : bool := negb (is_zero x || is_nan x).

Definition isNegativeZero (x : float) : bool :=
  match classify x with NZero => true | _ => false end.

(** [Math.min(a, b)] and [Math.max(a, b)]: [NaN] when an argument is,
    and [-0] counts as smaller than [+0]. *)
Definition Math_min (a b : float) : float :=
  if is_nan a || is_nan b then nan
  else if a <? b then a
  else if b <? a then b
  else if isNegativeZero a then a else b.

Definition Math_max (a b : float) : float :=
  if is_nan a || is_nan b then nan
  else if a <? b then b
  else if b <? a then a
  else if isNegativeZero a then b else a.

Module Vector3.

Record t : Type := mk { x : float; y : float; z : float }.

Definition zero : t := mk 0 0 0.

(** [new Vector3().subVectors(a, b)]. *)
Definition subVectors (a b : t) : t :=
  mk (x a - x b) (y a - y b) (z a - z b).

Definition multiplyScalar (v : t) (s : float) : t :=
  mk (x v * s) (y v * s) (z v * s).

(** [v.divideScalar(s)] is [v.multiplyScalar(1 / s)]. *)
Definition divideScalar (v : t) (s : float) : t := multiplyScalar v (1 / s).

(** [a.addScaledVector(v, s)]: [a.x += v.x * s], and so on. *)
Definition addScaledVector (a v : t) (s : float) : t :=
  mk (x a + x v * s) (y a + y v * s) (z a + z v * s).

(** [new Vector3().lerpVectors(v1, v2, alpha)]:
    [x = v1.x + (v2.x - v1.x) * alpha]. *)
Definition lerpVectors (v1 v2 : t) (alpha : float) : t :=
  mk (x v1 + (x v2 - x v1) * alpha)
     (y v1 + (y v2 - y v1) * alpha)
     (z v1 + (z v2 - z v1) * alpha).

(** [v.length()] is [Math.sqrt(x * x + y * y + z * z)]. *)
Definition length (v : t) : float :=
  sqrt (x v * x v + y v * y v + z v * z v).

(** [v.normalize()] is [v.divideScalar(v.length() || 1)]. *)
Definition normalize (v : t) : t :=
  let l := length v in
  divideScalar v (if truthy l then l else 1).

End Vector3.

Module OrbitControls.
Record t : Type := mk { target : Vector3.t; minDistance : float }.
End OrbitControls.

Module Flight.
Record record : Type :=
  mk { startPos : Vector3.t;
       startTarget : Vector3.t;
       endPos : Vector3.t;
       endTarget : Vector3.t;
       t : float;
       d : float;
       onComplete : option Callback }.

Definition set_t (a : record) (t' : float) : record :=
  mk (startPos a) (startTarget a) (endPos a) (endTarget a) t' (d a)
     (onComplete a).
End Flight.

Module World.
Record t : Type :=
  mk { camera_position : Vector3.t;
       controlsRef : option OrbitControls.t;
       animRef : option Flight.record;
       called : list (Callback * Vector3.t) }.
End World.

Section Animator.

(** [controlsRef.current.update()]: the camera position it leaves, from
    the controls and the position the animator wrote. *)
Variable controls_update : OrbitControls.t -> Vector3.t -> Vector3.t.

(** Line 168: the smoothstep ease [k * k * (3 - 2 * k)]. *)
Definition ease (k : float) : float := k * k * (3 - 2 * k).

(** Lines 163-186: the frame callback. *)
Definition advance (delta : float) (w : World.t) : World.t :=
  match World.animRef w with
  | None => w
  | Some a =>
      let t' := Math_min (Flight.t a + delta) (Flight.d a) in
      let a := Flight.set_t a t' in
      let k := Flight.t a / Flight.d a in
      let e := ease k in
      let pos :=
        Vector3.lerpVectors (Flight.startPos a) (Flight.endPos a) e in
      let tgt :=
        Vector3.lerpVectors (Flight.startTarget a) (Flight.endTarget a) e in
      let controls' :=
        (fun c => OrbitControls.mk tgt (OrbitControls.minDistance c))
          <$> World.controlsRef w in
      let camera' :=
        match controls' with
        | Some c => controls_update c pos
        | None => pos
        end in
      if Flight.d a <=? Flight.t a
      then World.mk camera' controls' None
             (World.called w
              ++ match Flight.onComplete a with
                 | Some cb => [(cb, camera')]
                 | None => []
                 end)
      else World.mk camera' controls' (Some a) (World.called w)
  end.

(** Lines 189-192: the viewing direction, with its fallback. *)
Definition flyDirection (w : World.t) : Vector3.t :=
  let target :=
    match World.controlsRef w with
    | Some c => OrbitControls.target c
    | None => Vector3.zero
    end in
  let dir :=
    Vector3.normalize (Vector3.subVectors (World.camera_position w) target) in
  if negb (isFinite (Vector3.length dir)) || (Vector3.length dir =? 0)
  then Vector3.normalize (Vector3.mk 1 0.5 1)
  else dir.

(** Line 194: [controlsRef.current?.minDistance ?? 0]. *)
Definition minD (w : World.t) : float :=
  match World.controlsRef w with
  | Some c => OrbitControls.minDistance c
  | None => 0
  end.

(** Lines 188-209: [flyTo(endTarget, distance, duration = 1.2,
    onComplete)]; [duration] is [None] when the caller leaves it out. *)
Definition flyTo (endTarget : Vector3.t) (distance : float)
    (duration : option float) (onComplete : option Callback)
    (w : World.t) : World.t :=
  let duration := default 1.2 duration in
  let dir := flyDirection w in
  let endDistance := Math_max distance (minD w + 0.01) in
  let endPos := Vector3.addScaledVector endTarget dir endDistance in
  let startPos := World.camera_position w in
  let startTarget :=
    match World.controlsRef w with
    | Some c => OrbitControls.target c
    | None => Vector3.zero
    end in
  World.mk (World.camera_position w) (World.controlsRef w)
    (Some (Flight.mk startPos startTarget endPos endTarget 0
             (Math_max 0.2 duration) onComplete))
    (World.called w).

(** A run of frames. *)
Definition run (deltas : list float) (w : World.t) : World.t :=
  fold_left (fun w delta => advance delta w) deltas w.

End Animator.

End Float64.

Module Float64Notions.
Import Float64.
#[local] Open Scope float_scope.






(** The viewing direction, in the words of the specification: the unit
    vector from the look-at target to the camera, and (1, 0.5, 1)
    normalised when that vector is degenerate, its length zero or not
    finite. *)
Definition viewingDirection (camera lookAt : Vector3.t) : Vector3.t :=
  let v := Vector3.normalize (Vector3.subVectors camera lookAt) in
  if negb (isFinite (Vector3.length v)) || (Vector3.length v =? 0)
  then Vector3.normalize (Vector3.mk 1 0.5 1)
  else v.

(** The desired distance, no smaller than the minimum orbit distance
    plus 0.01. *)
Definition clampedDistance (desired minimum : float) : float :=
  Math_max desired (minimum + 0.01).

End Float64Notions.

(** ** Examples in binary64 *)


(** The page: the camera at (8, 6, 8), orbit controls around the origin
    with minimum distance 0.5, no flight in progress. *)
Definition worldOfPage64 : Float64.World.t :=
  Float64.World.mk (Float64.Vector3.mk 8 6 8)
    (Some (Float64.OrbitControls.mk Float64.Vector3.zero 0.5)) None [].




(** ** Marker discovery *)

Section DiscoveryFacts.

Variable rt : Q -> Q.
Variable bp : option string.

Implicit Types (obj : Vector3.t * Object3D.t) (m : Marker.t).

Lemma discoverLoop_cons obj rest markers used :
  discoverLoop rt bp (obj :: rest) markers used
  = match candidateMarker rt bp obj with
    | None => discoverLoop rt bp rest markers used
    | Some m =>
        if decide (safeNameOf obj.2 ∈ used)
        then discoverLoop rt bp rest markers used
        else if (20 <=? length (markers ++ [m]))%nat then markers ++ [m]
             else discoverLoop rt bp rest (markers ++ [m])
                    ({[safeNameOf obj.2]} ∪ used)
    end.
Proof.
  unfold candidateMarker, sphereOk. cbn [discoverLoop].
  destruct (computeObjectSphere rt obj) as [s|]; [|reflexivity].
  destruct (negb _ || _); reflexivity.
Qed.

Lemma candidateMarker_is_Some obj :
  is_Some (candidateMarker rt bp obj) <-> is_Some (sphereOk rt obj).
Proof. unfold candidateMarker. apply fmap_is_Some. Qed.

(** The loop computes the pipeline: filter, first of each name, cap. *)
Lemma discoverLoop_pipeline cands : forall markers used,
  (length markers < 20)%nat ->
  discoverLoop rt bp cands markers used
  = markers
    ++ omap (candidateMarker rt bp)
         (take (20 - length markers)
            (firstOfName used
               (List.filter
                  (fun obj => bool_decide (is_Some (sphereOk rt obj)))
                  cands))).
Proof.
  induction cands as [|obj rest IH]; intros markers used Hlen.
  - cbn. rewrite take_nil. cbn. by rewrite app_nil_r.
  - rewrite discoverLoop_cons. cbn [List.filter].
    destruct (candidateMarker rt bp obj) as [m|] eqn:Hm.
    2:{ rewrite bool_decide_eq_false_2; [by apply IH|].
        rewrite <- candidateMarker_is_Some, Hm. by intros [? ?]. }
    rewrite bool_decide_eq_true_2
      by (rewrite <- candidateMarker_is_Some, Hm; eauto).
    cbn [firstOfName].
    destruct (decide (safeNameOf obj.2 ∈ used)) as [Hin|Hnin];
      [by apply IH|].
    rewrite length_app. cbn [length].
    destruct (20 <=? length markers + 1)%nat eqn:Hcap.
    + apply Nat.leb_le in Hcap.
      replace (20 - length markers)%nat with 1%nat by lia.
      cbn [take]. rewrite take_0. cbn [omap list_omap]. by rewrite Hm.
    + apply Nat.leb_gt in Hcap.
      rewrite IH by (rewrite length_app; cbn; lia).
      rewrite length_app. cbn [length].
      replace (20 - length markers)%nat
        with (S (20 - (length markers + 1)))%nat by lia.
      cbn [take omap list_omap]. rewrite Hm.
      by rewrite <- app_assoc.
Qed.

Lemma discoverLoop_accepted cands :
  discoverLoop rt bp cands [] ∅
  = omap (candidateMarker rt bp) (acceptedCandidates rt cands).
Proof. rewrite discoverLoop_pipeline by (cbn; lia). reflexivity. Qed.

(** What the first-of-each-name pass keeps: an element of the list that
    passes the filter, whose name is not used yet, and that no earlier
    passing element shares its name with. *)
Lemma firstOfName_first (f : Vector3.t * Object3D.t -> bool) l :
  forall used x,
    x ∈ firstOfName used (List.filter f l) ->
    exists p, l !! p = Some x /\ f x = true /\ (safeNameOf x.2 ∉ used)
      /\ forall p' y, (p' < p)%nat -> l !! p' = Some y -> f y = true ->
           safeNameOf y.2 <> safeNameOf x.2.
Proof.
  induction l as [|obj rest IH]; intros used x Hx; cbn in Hx.
  - by apply elem_of_nil in Hx.
  - destruct (f obj) eqn:Hf; cbn [firstOfName] in Hx.
    + destruct (decide (safeNameOf obj.2 ∈ used)) as [Hin|Hnin].
      * destruct (IH _ _ Hx) as (p & Hp & Hfx & Hnu & Hfirst).
        exists (S p). repeat split; try done.
        intros [|p'] y Hlt Hy Hfy; cbn in Hy.
        -- injection Hy as <-. intros Heq. by rewrite Heq in Hin.
        -- apply (Hfirst p' y); [lia|done|done].
      * apply elem_of_cons in Hx as [->|Hx].
        -- exists 0%nat. repeat split; try done. intros; lia.
        -- destruct (IH _ _ Hx) as (p & Hp & Hfx & Hnu & Hfirst).
           apply not_elem_of_union in Hnu as [Hne Hnu].
           apply not_elem_of_singleton in Hne.
           exists (S p). repeat split; try done.
           intros [|p'] y Hlt Hy Hfy; cbn in Hy.
           ++ injection Hy as <-. congruence.
           ++ apply (Hfirst p' y); [lia|done|done].
    + destruct (IH _ _ Hx) as (p & Hp & Hfx & Hnu & Hfirst).
      exists (S p). repeat split; try done.
      intros [|p'] y Hlt Hy Hfy; cbn in Hy.
      * injection Hy as <-. congruence.
      * apply (Hfirst p' y); [lia|done|done].
Qed.

Lemma firstOfName_NoDup l : forall used,
  NoDup ((fun obj => safeNameOf obj.2) <$> firstOfName used l)
  /\ forall x, x ∈ firstOfName used l -> safeNameOf x.2 ∉ used.
Proof.
  induction l as [|obj rest IH]; intros used; cbn [firstOfName].
  - split; [constructor|]. intros x Hx. by apply elem_of_nil in Hx.
  - destruct (decide (safeNameOf obj.2 ∈ used)) as [Hin|Hnin]; [done|].
    destruct (IH ({[safeNameOf obj.2]} ∪ used)) as [Hnd Hfresh].
    split.
    + cbn. constructor; [|done].
      intros (y & Heq & Hy)%list_elem_of_fmap.
      apply Hfresh in Hy. apply not_elem_of_union in Hy as [Hy _].
      by apply not_elem_of_singleton in Hy.
    + intros x [->|Hx]%elem_of_cons; [done|].
      apply Hfresh in Hx. by apply not_elem_of_union in Hx as [_ Hx].
Qed.

Lemma acceptedCandidates_NoDup cands :
  NoDup ((fun obj => safeNameOf obj.2) <$> acceptedCandidates rt cands).
Proof.
  unfold acceptedCandidates. rewrite fmap_take.
  eapply sublist_NoDup; [apply firstOfName_NoDup|apply sublist_take].
Qed.

Lemma acceptedCandidates_length cands :
  (length (acceptedCandidates rt cands) <= 20)%nat.
Proof. unfold acceptedCandidates. rewrite length_take. lia. Qed.

Lemma acceptedCandidates_valid cands x :
  x ∈ acceptedCandidates rt cands ->
  exists p, cands !! p = Some x /\ is_Some (candidateMarker rt bp x)
    /\ forall p' y, (p' < p)%nat -> cands !! p' = Some y ->
         is_Some (candidateMarker rt bp y) ->
         safeNameOf y.2 <> safeNameOf x.2.
Proof.
  unfold acceptedCandidates. intros Hx.
  apply list_elem_of_lookup in Hx as [i Hi].
  apply lookup_take_Some in Hi as [Hi _].
  apply list_elem_of_lookup_2 in Hi.
  destruct (firstOfName_first _ _ _ _ Hi) as (p & Hp & Hf & _ & Hfirst).
  exists p. split; [done|]. split.
  - apply candidateMarker_is_Some. by apply bool_decide_eq_true in Hf.
  - intros p' y Hlt Hy Hsome. apply (Hfirst p' y); [done|done|].
    apply bool_decide_eq_true. by apply candidateMarker_is_Some.
Qed.

(** The accepted markers, one per accepted candidate, in order. *)
Lemma discoverLoop_Forall2 cands :
  Forall2 (fun obj m => candidateMarker rt bp obj = Some m)
    (acceptedCandidates rt cands) (discoverLoop rt bp cands [] ∅).
Proof.
  rewrite discoverLoop_accepted.
  assert (Hall : Forall (fun obj => is_Some (candidateMarker rt bp obj))
                   (acceptedCandidates rt cands)).
  { apply Forall_forall. intros x Hx.
    by destruct (acceptedCandidates_valid _ _ Hx) as (? & ? & ? & ?). }
  induction Hall as [|obj l [m Hm] _ IH]; cbn [omap list_omap].
  - constructor.
  - rewrite Hm. by constructor.
Qed.

(** What a marker made from a candidate looks like. *)
Lemma candidateMarker_Some obj m :
  candidateMarker rt bp obj = Some m ->
  Marker.id m = Object3D.uuid obj.2
  /\ Marker.name m = safeNameOf obj.2
  /\ Num.ltb (Fin (1 # 50)) (Marker.radius m) = true
  /\ Marker.description m
     = Some ("Information about " +:+ safeNameOf obj.2 +:+ ".")
  /\ Marker.image m = Some (buildPublicUrl bp "next.svg").
Proof.
  unfold candidateMarker, sphereOk. intros H.
  destruct (computeObjectSphere rt obj) as [s|]; [|done].
  destruct (negb _ || _) eqn:Hbad; [done|].
  cbn in H. injection H as <-. cbn. repeat split.
  apply orb_false_iff in Hbad as [Hfin Hle].
  destruct (Sphere.radius s); try done. cbn in *. by rewrite Hle.
Qed.

End DiscoveryFacts.

Section OverrideFacts.

Variable bp : option string.

Implicit Types (m : Marker.t) (ms : list Marker.t).

Lemma overrideIndex_lt ms i :
  overrideIndex ms = Some i -> (i < length ms)%nat.
Proof.
  unfold overrideIndex.
  destruct (list_find isOverrideMatch ms) as [[k x]|] eqn:Hfind.
  - intros [= <-]. apply list_find_Some in Hfind as (Hk & _).
    by apply lookup_lt_Some in Hk.
  - destruct (0 <? length ms)%nat eqn:Hlen; [|done].
    intros [= <-]. by apply Nat.ltb_lt.
Qed.

Lemma overrideIndex_nil ms : overrideIndex ms = None -> ms = [].
Proof.
  unfold overrideIndex.
  destruct (list_find isOverrideMatch ms) as [[k x]|]; [done|].
  destruct ms; [done|]. cbn. done.
Qed.

Lemma overrideIndex_first ms i m :
  ms !! i = Some m -> isOverrideMatch m ->
  (forall j y, (j < i)%nat -> ms !! j = Some y -> ~ isOverrideMatch y) ->
  overrideIndex ms = Some i.
Proof.
  intros Hi Hm Hfirst. unfold overrideIndex.
  assert (list_find isOverrideMatch ms = Some (i, m)) as ->; [|done].
  apply list_find_Some. repeat split; try done.
  intros j y Hy Hlt. by apply (Hfirst j y).
Qed.

Lemma overrideIndex_no_match ms :
  ms <> [] -> Forall (fun m => ~ isOverrideMatch m) ms ->
  overrideIndex ms = Some 0%nat.
Proof.
  intros Hne Hall. unfold overrideIndex.
  assert (list_find isOverrideMatch ms = None) as ->
    by (by apply list_find_None).
  destruct ms; [done|]. reflexivity.
Qed.

Lemma applyOverride_length ms :
  length (applyOverride bp ms) = length ms.
Proof.
  unfold applyOverride. destruct (overrideIndex ms); [|done].
  apply length_alter.
Qed.

Lemma applyOverride_target ms i :
  overrideIndex ms = Some i ->
  applyOverride bp ms !! i = overrideTarget bp <$> ms !! i.
Proof.
  intros Hi. unfold applyOverride. rewrite Hi.
  apply list_lookup_alter_eq.
Qed.

Lemma applyOverride_other ms i j :
  overrideIndex ms = Some i -> j <> i ->
  applyOverride bp ms !! j = ms !! j.
Proof.
  intros Hi Hne. unfold applyOverride. rewrite Hi.
  by apply list_lookup_alter_ne.
Qed.

(** The override touches the name, the image and, when there is none,
    the description; the node behind the marker stays. *)
Lemma applyOverride_frame ms :
  Marker.id <$> applyOverride bp ms = Marker.id <$> ms
  /\ Marker.center <$> applyOverride bp ms = Marker.center <$> ms
  /\ Marker.radius <$> applyOverride bp ms = Marker.radius <$> ms.
Proof.
  unfold applyOverride. destruct (overrideIndex ms) as [i|]; [|done].
  repeat split; apply list_eq; intros j; rewrite !list_lookup_fmap;
    (destruct (decide (j = i)) as [->|Hne];
     [rewrite list_lookup_alter_eq; by destruct (ms !! i)
     |by rewrite list_lookup_alter_ne]).
Qed.

Lemma append_inj_l (a b c : string) : a +:+ b = a +:+ c -> b = c.
Proof. induction a as [|ch a IH]; cbn; [done|]. intros [= H]. auto. Qed.

Lemma buildPublicUrl_shape :
  exists prefix, forall r', buildPublicUrl bp r'
                            = prefix +:+ Str.dropLeadingSlash r'.
Proof.
  unfold buildPublicUrl. destruct bp as [base|].
  - destruct (Str.truthy base && negb (String.eqb base "/")).
    + exists (Str.dropTrailingSlash base +:+ "/"). intros r'.
      induction (Str.dropTrailingSlash base) as [|ch a IH]; [done|].
      change (String ch (a +:+ "/" +:+ Str.dropLeadingSlash r')
              = String ch ((a +:+ "/") +:+ Str.dropLeadingSlash r')).
      by rewrite IH.
    + by exists "/".
  - by exists "/".
Qed.

Lemma overrideImage_fresh :
  buildPublicUrl bp "next.svg" <> overrideImage bp.
Proof.
  unfold overrideImage.
  destruct buildPublicUrl_shape as [prefix Hshape].
  rewrite !Hshape. intros H. apply append_inj_l in H. discriminate H.
Qed.

End OverrideFacts.

Section DiscoveryClaims.

Variable rt : Q -> Q.
Variable bp : option string.

Implicit Types (obj : Vector3.t * Object3D.t) (m : Marker.t).

Lemma acceptedMarkers_Forall2 scene :
  Forall2 (fun obj m => candidateMarker rt bp obj = Some m)
    (acceptedCandidates rt (gatherCandidates (groundOffset scene) scene))
    (acceptedMarkers rt bp scene).
Proof. apply discoverLoop_Forall2. Qed.

Lemma acceptedMarkers_names scene :
  Marker.name <$> acceptedMarkers rt bp scene
  = (fun obj => safeNameOf obj.2)
      <$> acceptedCandidates rt (gatherCandidates (groundOffset scene) scene).
Proof.
  induction (acceptedMarkers_Forall2 scene) as [|obj m l k Hm _ IH];
    [done|].
  cbn. rewrite IH. f_equal.
  by destruct (candidateMarker_Some _ _ _ _ Hm) as (_ & -> & _).
Qed.

Lemma acceptedMarkers_NoDup scene :
  NoDup (Marker.name <$> acceptedMarkers rt bp scene).
Proof. rewrite acceptedMarkers_names. apply acceptedCandidates_NoDup. Qed.

Lemma NoDup_names_lookup (l : list Marker.t) j k m1 m2 :
  NoDup (Marker.name <$> l) ->
  l !! j = Some m1 -> l !! k = Some m2 ->
  Marker.name m1 = Marker.name m2 -> j = k.
Proof.
  intros Hnd Hj Hk Heq.
  eapply NoDup_lookup; [exact Hnd| |]; rewrite list_lookup_fmap.
  - rewrite Hj. reflexivity.
  - rewrite Hk. cbn. by rewrite Heq.
Qed.

Lemma acceptedMarkers_length scene :
  (length (acceptedMarkers rt bp scene) <= 20)%nat.
Proof.
  rewrite <- (Forall2_length _ _ _ (acceptedMarkers_Forall2 scene)).
  apply acceptedCandidates_length.
Qed.

Lemma acceptedMarkers_fields scene :
  Forall (fun m =>
            Num.ltb (Fin (1 # 50)) (Marker.radius m) = true
            /\ Marker.description m
               = Some ("Information about " +:+ Marker.name m +:+ ".")
            /\ Marker.image m = Some (buildPublicUrl bp "next.svg"))
    (acceptedMarkers rt bp scene).
Proof.
  induction (acceptedMarkers_Forall2 scene) as [|obj m l k Hm _ IH];
    constructor; [|done].
  destruct (candidateMarker_Some _ _ _ _ Hm) as (_ & -> & ? & ? & ?).
  done.
Qed.

(** C2 (amended): in every discovery pass, every marker handed to
    [onMarkers] has a radius above 0.02, there are at most twenty of
    them, and they are the markers the loop accepted, in the same
    positions.  The names the loop assigned (the trimmed names) are
    pairwise distinct, each accepted marker comes from the first
    candidate of its name that passes the sphere filter, and two markers
    of the final list can only share a name when that name is
    "Power Aisle", the one the override writes. *)
Theorem C2_discovery_invariants (scene : Object3D.t) :
  let cands := gatherCandidates (groundOffset scene) scene in
  let acc := acceptedMarkers rt bp scene in
  let ms := discover rt bp scene in
  Forall (fun m => Num.ltb (Fin (1 # 50)) (Marker.radius m) = true) ms
  /\ (length ms <= 20)%nat
  /\ Marker.id <$> ms = Marker.id <$> acc
  /\ NoDup (Marker.name <$> acc)
  /\ Forall (fun m =>
       exists p obj, cands !! p = Some obj
         /\ candidateMarker rt bp obj = Some m
         /\ Marker.name m = safeNameOf obj.2
         /\ forall p' obj', (p' < p)%nat -> cands !! p' = Some obj' ->
              is_Some (candidateMarker rt bp obj') ->
              safeNameOf obj'.2 <> Marker.name m) acc
  /\ (forall j k m1 m2, j <> k ->
        ms !! j = Some m1 -> ms !! k = Some m2 ->
        Marker.name m1 = Marker.name m2 ->
        Marker.name m1 = "Power Aisle").
Proof.
  intros cands acc ms. subst ms. unfold discover. fold acc.
  destruct (applyOverride_frame bp acc) as (Hid & _ & Hrad).
  split; [|split; [|split; [|split; [|split]]]].
  - apply Forall_fmap with (f := Marker.radius)
                           (P := fun r => Num.ltb (Fin (1 # 50)) r = true).
    rewrite Hrad. apply Forall_fmap.
    eapply Forall_impl; [apply acceptedMarkers_fields|].
    by intros m (? & _).
  - rewrite applyOverride_length. apply acceptedMarkers_length.
  - done.
  - apply acceptedMarkers_NoDup.
  - apply Forall_forall. intros m Hm.
    apply list_elem_of_lookup in Hm as [i Hi].
    destruct (Forall2_lookup_r _ _ _ _ _ (acceptedMarkers_Forall2 scene) Hi)
      as (obj & Hobj & Hmk).
    apply list_elem_of_lookup_2 in Hobj.
    destruct (acceptedCandidates_valid rt bp _ _ Hobj)
      as (p & Hp & _ & Hfirst).
    destruct (candidateMarker_Some _ _ _ _ Hmk) as (_ & Hname & _).
    exists p, obj. repeat split; try done.
    rewrite Hname. apply Hfirst.
  - intros j k m1 m2 Hjk Hj Hk Heq.
    destruct (overrideIndex acc) as [i|] eqn:Hidx.
    2:{ unfold applyOverride in Hj, Hk. rewrite Hidx in Hj, Hk.
        exfalso. apply Hjk.
        by apply (NoDup_names_lookup acc j k m1 m2
                    (acceptedMarkers_NoDup scene)). }
    destruct (decide (j = i)) as [->|Hji].
    { rewrite (applyOverride_target _ _ _ Hidx) in Hj.
      destruct (acc !! i); [|done]. by injection Hj as <-. }
    destruct (decide (k = i)) as [->|Hki].
    { rewrite (applyOverride_target _ _ _ Hidx) in Hk.
      destruct (acc !! i); [|done]. injection Hk as <-. by rewrite Heq. }
    rewrite (applyOverride_other _ _ _ _ Hidx) in Hj by done.
    rewrite (applyOverride_other _ _ _ _ Hidx) in Hk by done.
    exfalso. apply Hjk.
    by apply (NoDup_names_lookup acc j k m1 m2
                (acceptedMarkers_NoDup scene)).
Qed.

(** C3: in every discovery pass the override leaves the list's length and
    every marker's position, id, centre and radius as they are.  With no
    accepted marker nothing is changed.  When an accepted marker matches
    "Power Aisle" case-insensitively, the first such marker ends up named
    exactly "Power Aisle" with the override image; when none matches, the
    first marker of the list does.  Exactly one marker of a non-empty list
    differs from what the loop accepted. *)
Theorem C3_override_promotes_one (scene : Object3D.t) :
  let acc := acceptedMarkers rt bp scene in
  let ms := discover rt bp scene in
  length ms = length acc
  /\ Marker.id <$> ms = Marker.id <$> acc
  /\ Marker.center <$> ms = Marker.center <$> acc
  /\ Marker.radius <$> ms = Marker.radius <$> acc
  /\ (acc = [] -> ms = [])
  /\ ((exists m, m ∈ acc /\ isOverrideMatch m) ->
      exists i m m',
        acc !! i = Some m /\ isOverrideMatch m
        /\ (forall j y, (j < i)%nat -> acc !! j = Some y ->
              ~ isOverrideMatch y)
        /\ ms !! i = Some m'
        /\ Marker.name m' = "Power Aisle"
        /\ Marker.image m' = Some (overrideImage bp)
        /\ forall j, j <> i -> ms !! j = acc !! j)
  /\ ((forall m, m ∈ acc -> ~ isOverrideMatch m) ->
      forall m0, acc !! 0%nat = Some m0 ->
        exists m', ms !! 0%nat = Some m'
          /\ Marker.name m' = "Power Aisle"
          /\ Marker.image m' = Some (overrideImage bp)
          /\ forall j, j <> 0%nat -> ms !! j = acc !! j)
  /\ (acc <> [] ->
      exists i, ms !! i <> acc !! i
        /\ forall j, j <> i -> ms !! j = acc !! j).
Proof.
  intros acc ms. subst ms. unfold discover. fold acc.
  destruct (applyOverride_frame bp acc) as (Hid & Hcen & Hrad).
  split; [apply applyOverride_length|].
  do 3 (split; [done|]).
  split; [by intros ->|].
  split; [|split].
  - intros (m & Hin & Hm).
    assert (Hex : Exists isOverrideMatch acc) by (apply Exists_exists; eauto).
    destruct (list_find isOverrideMatch acc) as [[i x]|] eqn:Hfind.
    2:{ apply list_find_None in Hfind.
        by apply Forall_Exists_neg in Hfind. }
    apply list_find_Some in Hfind as (Hi & Hx & Hfirst).
    assert (Hidx : overrideIndex acc = Some i).
    { apply (overrideIndex_first acc i x); [done|done|].
      intros j y Hlt Hy. by apply (Hfirst j y). }
    exists i, x, (overrideTarget bp x).
    repeat split; try done.
    + intros j y Hlt Hy. by apply (Hfirst j y).
    + by rewrite (applyOverride_target _ _ _ Hidx), Hi.
    + intros j Hne. by apply (applyOverride_other bp acc i j Hidx).
  - intros Hnone m0 H0.
    assert (Hidx : overrideIndex acc = Some 0%nat).
    { apply overrideIndex_no_match.
      - intros Hnil. by rewrite Hnil in H0.
      - by apply Forall_forall. }
    exists (overrideTarget bp m0). repeat split.
    + by rewrite (applyOverride_target _ _ _ Hidx), H0.
    + intros j Hne. by apply (applyOverride_other bp acc 0%nat j Hidx).
  - intros Hne.
    destruct (overrideIndex acc) as [i|] eqn:Hidx.
    2:{ by apply overrideIndex_nil in Hidx. }
    exists i.
    split; [|intros j Hj; by apply (applyOverride_other bp acc i j Hidx)].
    rewrite (applyOverride_target _ _ _ Hidx).
    destruct (acc !! i) as [m|] eqn:Hi.
    2:{ apply overrideIndex_lt in Hidx.
        apply lookup_ge_None in Hi. lia. }
    cbn. intros [= Heq].
    pose proof (acceptedMarkers_fields scene) as Hall.
    apply list_elem_of_lookup_2 in Hi.
    rewrite Forall_forall in Hall.
    destruct (Hall m Hi) as (_ & _ & Himg).
    rewrite <- Heq in Himg. cbn in Himg. injection Himg as Himg.
    by apply (overrideImage_fresh bp).
Qed.

(** C10: in every discovery pass each accepted marker carries the
    description "Information about <name>." before the override runs, so
    the override finds a description on its target and never writes the
    dedicated one: every marker of the final list, the promoted one
    included, keeps the description generated from its original name. *)
Theorem C10_description_kept (scene : Object3D.t) :
  let acc := acceptedMarkers rt bp scene in
  let ms := discover rt bp scene in
  Forall (fun m =>
            Marker.description m
            = Some ("Information about " +:+ Marker.name m +:+ ".")
            /\ truthy_opt (Marker.description m) = true
            /\ Marker.description (overrideTarget bp m)
               = Marker.description m) acc
  /\ Marker.description <$> ms = Marker.description <$> acc
  /\ Forall (fun m =>
               Marker.description m
               <> Some "High-capacity aisle for main power distribution.")
       ms.
Proof.
  intros acc ms.
  assert (Hacc : Forall (fun m =>
            Marker.description m
            = Some ("Information about " +:+ Marker.name m +:+ ".")
            /\ truthy_opt (Marker.description m) = true
            /\ Marker.description (overrideTarget bp m)
               = Marker.description m) acc).
  { eapply Forall_impl; [apply acceptedMarkers_fields|].
    intros m (_ & Hd & _). split; [done|].
    assert (truthy_opt (Marker.description m) = true) as Ht
      by (by rewrite Hd).
    split; [done|]. cbn. by rewrite Ht. }
  assert (Hsame : Marker.description <$> ms = Marker.description <$> acc).
  { subst ms. unfold discover, applyOverride. fold acc.
    destruct (overrideIndex acc) as [i|]; [|done].
    apply list_eq. intros j. rewrite !list_lookup_fmap.
    destruct (decide (j = i)) as [->|Hne].
    - rewrite list_lookup_alter_eq.
      destruct (acc !! i) as [m|] eqn:Hi; [|done]. cbn.
      apply list_elem_of_lookup_2 in Hi. rewrite Forall_forall in Hacc.
      destruct (Hacc m Hi) as (_ & Ht & _). by rewrite Ht.
    - by rewrite list_lookup_alter_ne. }
  split; [done|]. split; [done|].
  apply Forall_fmap with (f := Marker.description)
    (P := fun d => d <> Some "High-capacity aisle for main power distribution.").
  rewrite Hsame. apply Forall_fmap.
  eapply Forall_impl; [exact Hacc|].
  intros m (Hd & _). cbn. rewrite Hd. discriminate.
Qed.

Lemma discoverLoop_prefix cands : forall markers used,
  markers `prefix_of` discoverLoop rt bp cands markers used.
Proof.
  induction cands as [|obj rest IH]; intros markers used; [done|].
  rewrite discoverLoop_cons.
  destruct (candidateMarker rt bp obj) as [m|]; [|apply IH].
  destruct (decide (safeNameOf obj.2 ∈ used)); [apply IH|].
  destruct (20 <=? length (markers ++ [m]))%nat.
  - by apply prefix_app_r.
  - etrans; [|apply IH]. by apply prefix_app_r.
Qed.

Lemma whitespaceOnly_safeName (o : Object3D.t) :
  whitespaceOnly (Object3D.name o) = true -> safeNameOf o = "Group".
Proof.
  unfold whitespaceOnly, safeNameOf. intros [_ H]%andb_true_iff.
  apply negb_true_iff in H. by rewrite H.
Qed.

Lemma constant_NoDup_length {A B} (f : A -> B) (c : B) (l : list A) :
  NoDup (f <$> l) -> Forall (fun x => f x = c) l -> (length l <= 1)%nat.
Proof.
  intros Hnd Hall. destruct l as [|a [|b l]]; cbn; [lia|lia|].
  exfalso. apply Forall_cons in Hall as [Ha Hall].
  apply Forall_cons in Hall as [Hb _].
  cbn in Hnd. apply NoDup_cons in Hnd as [Hnin _].
  apply Hnin. rewrite Ha, Hb. left.
Qed.

(** C9: a candidate whose name is not empty but trims to the empty string
    passes the name test of the candidate filter and gets the safe name
    "Group"; when the loop reaches it with a sphere that passes the filter
    and "Group" unused, it pushes a marker named "Group" for it.  In every
    pass at most one accepted candidate has such a name: the markers of
    the loop are those of the accepted candidates, one for one. *)
Theorem C9_whitespace_name_becomes_Group
    (obj : Vector3.t * Object3D.t) (rest : list (Vector3.t * Object3D.t))
    (markers : list Marker.t) (used : gset string) :
  whitespaceOnly (Object3D.name obj.2) = true ->
  is_Some (sphereOk rt obj) ->
  "Group" ∉ used ->
  Str.truthy (Object3D.name obj.2) = true
  /\ safeNameOf obj.2 = "Group"
  /\ (exists m,
        candidateMarker rt bp obj = Some m
        /\ Marker.id m = Object3D.uuid obj.2
        /\ Marker.name m = "Group"
        /\ (markers ++ [m])
             `prefix_of` discoverLoop rt bp (obj :: rest) markers used)
  /\ forall cands,
       Forall2 (fun o m => candidateMarker rt bp o = Some m)
         (acceptedCandidates rt cands) (discoverLoop rt bp cands [] ∅)
       /\ (length (List.filter
                     (fun o => whitespaceOnly (Object3D.name o.2))
                     (acceptedCandidates rt cands)) <= 1)%nat.
Proof.
  intros Hws Hok Hfresh.
  pose proof (whitespaceOnly_safeName _ Hws) as Hsafe.
  split; [by apply andb_true_iff in Hws as [? _]|].
  split; [done|]. split.
  - apply (candidateMarker_is_Some rt bp) in Hok as [m Hm].
    exists m. destruct (candidateMarker_Some _ _ _ _ Hm) as (Hid & Hn & _).
    split; [done|]. split; [done|]. split; [by rewrite Hn|].
    rewrite discoverLoop_cons, Hm, Hsafe.
    destruct (decide ("Group" ∈ used)); [done|].
    destruct (20 <=? length (markers ++ [m]))%nat; [done|].
    apply discoverLoop_prefix.
  - intros cands. split; [apply discoverLoop_Forall2|].
    apply (constant_NoDup_length (fun o => safeNameOf o.2) "Group").
    + eapply sublist_NoDup; [apply (acceptedCandidates_NoDup rt cands)|].
      apply fmap_sublist. clear.
      induction (acceptedCandidates rt cands) as [|a l IH]; [done|].
      cbn. destruct (whitespaceOnly _);
        [by apply sublist_skip|by apply sublist_cons].
    + apply Forall_forall. intros x Hx.
      apply list_elem_of_In, filter_In in Hx as [_ Hx].
      by apply whitespaceOnly_safeName.
Qed.

End DiscoveryClaims.

(** C2 (as stated) fails: two nodes named "power aisle" and "Power Aisle"
    are both accepted, the override renames the first one, and the list
    handed to [onMarkers] holds the name "Power Aisle" twice. *)
Lemma C2_names_repeat_after_override :
  Marker.name <$> acceptedMarkers sqrt6 None sceneTwoAisles
  = ["power aisle"; "Power Aisle"]
  /\ Marker.name <$> discover sqrt6 None sceneTwoAisles
     = ["Power Aisle"; "Power Aisle"]
  /\ ~ NoDup (Marker.name <$> discover sqrt6 None sceneTwoAisles).
Proof.
  assert (H : Marker.name <$> discover sqrt6 None sceneTwoAisles
              = ["Power Aisle"; "Power Aisle"]) by (vm_compute; reflexivity).
  split; [vm_compute; reflexivity|]. split; [exact H|].
  rewrite H. intros Hnd. apply NoDup_cons in Hnd as [Hnin _].
  apply Hnin. left.
Qed.


Lemma C9_whitespace_name_witness :
  Str.truthy (Object3D.name blankMesh) = true
  /\ safeNameOf blankMesh = "Group"
  /\ Marker.name <$> acceptedMarkers sqrt6 None sceneBlank
     = ["Group"; "Lobby"].
Proof.
  pose proof (C9_whitespace_name_becomes_Group sqrt6 None
                (Vector3.zero, blankMesh) [] [] ∅) as H.
  destruct H as (Ht & Hs & _).
  - reflexivity.
  - vm_compute. eauto.
  - apply not_elem_of_empty.
  - split; [exact Ht|]. split; [exact Hs|]. vm_compute. reflexivity.
Defined.

(** ** Bounds normalization *)

Lemma expandByObject_worldPoints (o : Object3D.t) : forall b pw,
  Object3D.expandByObject b pw o
  = fold_left Box3.expandByPoint (Object3D.worldPoints pw o) b.
Proof.
  induction o as [n v u i pos geo cs IH] using Object3D_ind'.
  intros b pw. cbn [Object3D.expandByObject Object3D.worldPoints].
  rewrite fold_left_app.
  set (w := Vector3.add pw pos).
  assert (Hgeo : forall b,
            fold_left (fun b v => Box3.expandByPoint b (Vector3.add v w)) geo b
            = fold_left Box3.expandByPoint
                (List.map (fun v => Vector3.add v w) geo) b).
  { clear. induction geo as [|g geo IHg]; intros b; cbn; [done|]. apply IHg. }
  rewrite Hgeo.
  generalize (fold_left Box3.expandByPoint
                (List.map (fun v => Vector3.add v w) geo) b).
  clear Hgeo. induction IH as [|c cs Hc _ IHcs]; intros b'; cbn; [done|].
  rewrite fold_left_app, Hc. apply IHcs.
Qed.

Lemma worldPoints_length (o : Object3D.t) : forall pw,
  length (Object3D.worldPoints pw o) = Object3D.vertexCount o.
Proof.
  induction o as [n v u i pos geo cs IH] using Object3D_ind'.
  intros pw. cbn [Object3D.worldPoints Object3D.vertexCount].
  rewrite length_app, length_map. f_equal.
  generalize (Vector3.add pw pos). intros w.
  induction IH as [|c cs Hc _ IHcs]; cbn; [done|].
  by rewrite length_app, Hc, IHcs.
Qed.

Section NormalizationClaims.

Variable rt : Q -> Q.
Variable bp : option string.

(** C6 (amended): the layout effect computes the bounding sphere from the
    unmodified clone, held by a group at the origin, so the sphere's own
    centre is in pre-snap coordinates; the effect itself then projects
    the centre onto the ground plane: what [onBounds] receives is the
    clone sphere's radius and its centre with Y set to 0, X and Z kept. *)
Theorem C6_reported_center_is_projected
    (position : Vector3.t) (scene : Object3D.t) :
  exists r,
    layoutEffect rt bp (Some position) scene = Some r
    /\ cloneSphere rt scene
       = Box3.getBoundingSphere rt
           (Object3D.setFromObject Vector3.zero (Object3D.group [scene]))
    /\ BoundsInfo.radius (onBounds r) = Sphere.radius (cloneSphere rt scene)
    /\ Vector3.x (BoundsInfo.center (onBounds r))
       = Vector3.x (Sphere.center (cloneSphere rt scene))
    /\ Vector3.y (BoundsInfo.center (onBounds r)) = Fin 0
    /\ Vector3.z (BoundsInfo.center (onBounds r))
       = Vector3.z (Sphere.center (cloneSphere rt scene)).
Proof. eexists. split; [reflexivity|]. done. Qed.

End NormalizationClaims.

(** C6 (as stated) fails: for the raised room the clone's sphere is
    centred at height 2, and [onBounds] receives a centre at height 0. *)
Lemma C6_reported_center_is_not_pre_snap :
  exists r,
    layoutEffect sqrt6 None (Some Vector3.zero) sceneRaised = Some r
    /\ Num.eqb (Vector3.y (Sphere.center (cloneSphere sqrt6 sceneRaised)))
               (Fin 2) = true
    /\ Vector3.y (BoundsInfo.center (onBounds r)) = Fin 0
    /\ Num.eqb (Vector3.y (BoundsInfo.center (onBounds r)))
               (Vector3.y (Sphere.center (cloneSphere sqrt6 sceneRaised)))
       = false.
Proof. eexists. split; [reflexivity|]. by vm_compute. Qed.

(** C5: on an asset without geometry the layout effect does set the
    group's position: the clone's box is empty, its lowest height is
    [Infinity], and the group, mounted at the origin, ends at
    (0, -Infinity, 0); the radius [onBounds] receives is not positive. *)
Lemma C5_no_geometry_is_offset_to_minus_infinity :
  exists r,
    layoutEffect sqrt6 None (Some Vector3.zero) sceneNoGeometry = Some r
    /\ cloneBox sceneNoGeometry = Box3.makeEmpty
    /\ groupPosition r = Vector3.mk (Fin 0) NInf (Fin 0)
    /\ groupPosition r <> Vector3.zero
    /\ Num.leb (BoundsInfo.radius (onBounds r)) (Fin 0) = true
    /\ onMarkers r = [].
Proof. eexists. split; [reflexivity|]. by vm_compute. Qed.

(** C1: the layout effect does not bring the bottom of every asset with
    a finite vertex to height 0.  For the upright diamond it does.  For
    the turned diamond the lowest vertex is at height -24/25, but the
    clone's box is the box of the turned corners of the geometry's own
    box and reaches down to -31/25: the group is raised by 31/25 and the
    lowest height of the world-space geometry is then 7/25, not within
    1e-4 of 0.  For the mesh with a vertex of height [NaN] the box has
    the lowest height [NaN], the group is moved to (0, NaN, 0), and the
    height of every vertex, the finite one included, is then [NaN]. *)
Theorem C1_bottom_is_left_off_the_ground :
  Num.eqb (Posed.lowest (Posed.heightsAfter raisedDiamond)) (Fin 0) = true
  /\ (Forall (fun v => Vector3.isFinite v = true) diamond
      /\ Num.eqb
           (Posed.lowest (Vector3.y <$> Posed.worldVertices None turnedDiamond))
           (Fin (- (24 # 25))) = true
      /\ Num.eqb (Vector3.y (Box3.min (Posed.cloneBox turnedDiamond)))
           (Fin (- (31 # 25))) = true
      /\ Num.eqb (Vector3.y (Posed.groundOffset turnedDiamond))
           (Fin (31 # 25)) = true
      /\ Num.eqb (Posed.lowest (Posed.heightsAfter turnedDiamond))
           (Fin (7 # 25)) = true
      /\ ~ Num.within (1 # 10000)
             (Posed.lowest (Posed.heightsAfter turnedDiamond)) (Fin 0))
  /\ (Vector3.y (Box3.min (Posed.cloneBox meshWithNaN)) = NaN
      /\ Posed.groundOffset meshWithNaN = Vector3.mk (Fin 0) NaN (Fin 0)
      /\ Posed.heightsAfter meshWithNaN = [NaN; NaN]
      /\ ~ Num.within (1 # 10000)
             (Posed.lowest (Posed.heightsAfter meshWithNaN)) (Fin 0)).
Proof.
  split; [by vm_compute|]. split.
  - split; [by repeat constructor|].
    do 4 (split; [by vm_compute|]).
    vm_compute. intros H. by apply H.
  - do 3 (split; [by vm_compute|]). by vm_compute.
Qed.

(** ** The fly-to animator *)

Section FlightClaims.

Variable rt : Q -> Q.
Variable upd : OrbitControls.t -> Vector3.t -> Vector3.t.

(** A frame calls nothing but the continuation the world holds, and
    leaves no other continuation behind. *)
Lemma advance_called delta w :
  exists ext,
    World.called (advance upd delta w) = World.called w ++ ext
    /\ (forall cb, cb ∈ ext.*1 -> cb ∈ pending w)
    /\ (forall cb, cb ∈ pending (advance upd delta w) -> cb ∈ pending w).
Proof.
  unfold advance, pending.
  destruct (World.animRef w) as [a|] eqn:Ha.
  2:{ exists []. rewrite Ha, app_nil_r. done. }
  destruct (Num.geb _ _); cbn [World.called World.animRef].
  - eexists. split; [reflexivity|]. split; [|by intros cb ?%elem_of_nil].
    destruct a as [? ? ? ? ? ? [cb0|]]; cbn; [|done].
    intros cb ->%list_elem_of_singleton. left.
  - exists []. rewrite app_nil_r. split; [done|].
    split; [by intros cb ?%elem_of_nil|]. by destruct a.
Qed.

(** Over a whole run, every continuation that is called was held by the
    world at the start or handed in by a flyTo of the run. *)
Lemma run_called ops : forall w,
  exists ext,
    World.called (run rt upd ops w) = World.called w ++ ext
    /\ forall cb, cb ∈ ext.*1 -> cb ∈ pending w \/ cb ∈ requested ops.
Proof.
  induction ops as [|op ops IH]; intros w.
  - exists []. cbn. rewrite app_nil_r. split; [done|].
    by intros cb ?%elem_of_nil.
  - change (run rt upd (op :: ops) w) with (run rt upd ops (step rt upd w op)).
    destruct (IH (step rt upd w op)) as (ext & Hext & Hfrom).
    destruct op as [delta|endTarget distance duration onComplete];
      cbn [step] in *.
    + destruct (advance_called delta w) as (ext0 & Hext0 & Hfrom0 & Hpend).
      exists (ext0 ++ ext). rewrite Hext, Hext0, app_assoc.
      split; [done|]. intros cb. rewrite fmap_app, elem_of_app.
      intros [H|H]; [left; auto|].
      destruct (Hfrom cb H) as [H'|H']; [left; auto|right].
      exact H'.
    + exists ext. split; [done|]. intros cb H.
      right. cbn [requested flat_map]. apply elem_of_app.
      destruct (Hfrom cb H) as [H'|H']; [left|right; exact H'].
      unfold pending, flyTo in H'. cbn in H'. exact H'.
Qed.

(** C8: the world holds at most one flight record (an optional record).
    A flyTo call made while a flight is in progress replaces the record
    by the new one and calls nothing; whatever frames and flyTo calls
    follow, the replaced flight's continuation is never called, unless a
    later flyTo hands the same continuation in again. *)
Theorem C8_replaced_continuation_never_called
    (w : World.t) (old : Flight.record) (cbOld : Callback)
    (endTarget : Vector3.t) (distance : num) (duration : option num)
    (onComplete : option Callback) (ops : list Op) :
  World.animRef w = Some old ->
  Flight.onComplete old = Some cbOld ->
  onComplete <> Some cbOld ->
  cbOld ∉ requested ops ->
  let w1 := flyTo rt endTarget distance duration onComplete w in
  World.called w1 = World.called w
  /\ (exists a, World.animRef w1 = Some a
        /\ Flight.onComplete a = onComplete
        /\ Flight.endTarget a = endTarget
        /\ Flight.t a = Fin 0)
  /\ exists ext,
       World.called (run rt upd ops w1) = World.called w ++ ext
       /\ cbOld ∉ ext.*1.
Proof.
  intros Hold Hcb Hnew Hreq w1.
  split; [done|]. split; [eexists; split; [reflexivity|done]|].
  destruct (run_called ops w1) as (ext & Hext & Hfrom).
  exists ext. split; [done|]. intros Hin.
  destruct (Hfrom cbOld Hin) as [H|H]; [|done].
  unfold pending in H. cbn in H.
  destruct onComplete as [cb|]; cbn in H.
  - apply list_elem_of_singleton in H. by subst.
  - by apply elem_of_nil in H.
Qed.

End FlightClaims.

Lemma C8_replaced_continuation_witness :
  let w0 := flyTo sqrt6 (vecQ 1 0 0) (Fin 1) (Some (Fin 1)) (Some 1%nat)
              worldAtRest in
  let w1 := flyTo sqrt6 (vecQ 0 0 1) (Fin 1) (Some (Fin 1)) (Some 2%nat) w0 in
  World.called w1 = []
  /\ exists ext,
       World.called
         (run sqrt6 update_in_place (advances [1 # 2; 1 # 2; 1]) w1) = ext
       /\ 1%nat ∉ ext.*1.
Proof.
  cbv zeta.
  destruct (C8_replaced_continuation_never_called sqrt6 update_in_place
              (flyTo sqrt6 (vecQ 1 0 0) (Fin 1) (Some (Fin 1)) (Some 1%nat)
                 worldAtRest)
              (Flight.mk (vecQ 2 1 2) Vector3.zero
                 (Vector3.addScaledVector (vecQ 1 0 0)
                    (flyDirection sqrt6 worldAtRest)
                    (Num.max (Fin 1) (Num.add (minD worldAtRest) (Fin (1 # 100)))))
                 (vecQ 1 0 0) (Fin 0) (Fin 1) (Some 1%nat))
              1%nat (vecQ 0 0 1) (Fin 1) (Some (Fin 1)) (Some 2%nat)
              (advances [1 # 2; 1 # 2; 1]))
    as (H1 & _ & ext & H3 & H4).
  - reflexivity.
  - reflexivity.
  - discriminate.
  - cbn. apply not_elem_of_nil.
  - split; [exact H1|]. exists ext. split; [exact H3|exact H4].
Defined.


(** ** Further properties *)

(** The loop of the layout effect computes a pipeline: keep the candidates
    whose sphere passes the filter, then the first candidate of each safe
    name, then the first twenty, and make a marker of each. *)
Theorem discoverLoop_is_a_pipeline
    (rt : Q -> Q) (bp : option string)
    (candidates : list (Vector3.t * Object3D.t)) :
  discoverLoop rt bp candidates [] ∅
  = omap (candidateMarker rt bp)
      (take 20
         (firstOfName ∅
            (List.filter (fun obj => bool_decide (is_Some (sphereOk rt obj)))
                         candidates))).
Proof. apply discoverLoop_accepted. Qed.

(** The example of the specification: of "Lobby" (radius 2), a second
    "Lobby" (radius 1.5) and "PowerRoom" (radius 0.01) only the first is
    accepted, and the override promotes it to "Power Aisle". *)
Theorem lobby_example_yields_one_promoted_marker :
  (fun m => (Marker.id m, Marker.name m, Marker.description m, Marker.image m))
    <$> discover sqrt6 None sceneLobby
  = [("lobby-1", "Power Aisle", Some "Information about Lobby.",
      Some "/markers/power-aisle.png")]
  /\ Forall (fun m => Num.eqb (Marker.radius m) (Fin 2) = true)
       (discover sqrt6 None sceneLobby).
Proof.
  split; [by vm_compute|].
  repeat constructor.
Qed.

(** ** The URL builders and the build configuration *)

Lemma append_cons c (a b : string) : String c a +:+ b = String c (a +:+ b).
Proof. reflexivity. Qed.

Lemma dropTrailingSlash_cons c (s : string) :
  s <> "" ->
  Str.dropTrailingSlash (String c s) = String c (Str.dropTrailingSlash s).
Proof.
  intros Hs. destruct s as [|c' s']; [done|].
  cbn [Str.dropTrailingSlash].
  destruct c as [[] [] [] [] [] [] [] []]; reflexivity.
Qed.

Lemma dropTrailingSlash_app_slash (b : string) :
  Str.dropTrailingSlash (b +:+ "/") = b.
Proof.
  induction b as [|c b IH]; [reflexivity|].
  rewrite append_cons, dropTrailingSlash_cons; [by rewrite IH|].
  by destruct b.
Qed.

Lemma usable_with_slash c (b' : string) :
  Str.truthy (String c b' +:+ "/")
  && negb (String.eqb (String c b' +:+ "/") "/") = true.
Proof.
  rewrite append_cons. cbn [Str.truthy andb].
  apply negb_true_iff, String.eqb_neq. intros [= _ Heq]. by destruct b'.
Qed.

Lemma usable_without_slash c (b' : string) :
  Str.dropTrailingSlash (String c b') = String c b' ->
  Str.truthy (String c b') && negb (String.eqb (String c b') "/") = true.
Proof.
  intros Hb. cbn [Str.truthy andb].
  apply negb_true_iff, String.eqb_neq. intros Heq. rewrite Heq in Hb.
  discriminate Hb.
Qed.

(** Both URL builders ignore one leading slash of the relative path and
    one trailing slash of the base path.  Under a base path that is set,
    not empty and not "/", they build the same URL; under any other base
    path [buildAssetUrl] gives the relative path back and
    [buildPublicUrl] puts a slash in front of it. *)
Theorem url_builders_normalise_slashes (bp : option string) (b r : string) :
  Str.dropTrailingSlash b = b ->
  Str.dropLeadingSlash r = r ->
  buildPublicUrl bp ("/" +:+ r) = buildPublicUrl bp r
  /\ buildAssetUrl bp ("/" +:+ r) = buildAssetUrl bp r
  /\ buildPublicUrl (Some (b +:+ "/")) r = buildPublicUrl (Some b) r
  /\ buildAssetUrl (Some (b +:+ "/")) r = buildAssetUrl (Some b) r
  /\ (usableBase bp = true -> buildPublicUrl bp r = buildAssetUrl bp r)
  /\ (usableBase bp = false ->
      buildAssetUrl bp r = r /\ buildPublicUrl bp r = "/" +:+ r).
Proof.
  intros Hb Hr.
  assert (Hlead : Str.dropLeadingSlash ("/" +:+ r) = r) by reflexivity.
  split; [unfold buildPublicUrl; by rewrite Hlead, Hr|].
  split; [unfold buildAssetUrl; by rewrite Hlead, Hr|].
  split; [|split; [|split]].
  - destruct b as [|c b']; [reflexivity|]. unfold buildPublicUrl.
    by rewrite usable_with_slash, usable_without_slash,
      dropTrailingSlash_app_slash, Hb.
  - destruct b as [|c b']; [reflexivity|]. unfold buildAssetUrl.
    by rewrite usable_with_slash, usable_without_slash,
      dropTrailingSlash_app_slash, Hb.
  - unfold usableBase, buildPublicUrl, buildAssetUrl.
    destruct bp as [base|]; [|done]. by intros ->.
  - unfold usableBase, buildPublicUrl, buildAssetUrl. rewrite Hr.
    destruct bp as [base|]; [|done]. by intros ->.
Qed.

Lemma url_builders_normalise_slashes_witness :
  buildPublicUrl (Some "/shop/") "/markers/power-aisle.png"
  = "/shop/markers/power-aisle.png"
  /\ buildAssetUrl (Some "/shop/") "/models/hotel.glb"
     = "/shop/models/hotel.glb"
  /\ buildAssetUrl None "models/hotel.glb" = "models/hotel.glb".
Proof.
  destruct (url_builders_normalise_slashes (Some "/shop/") "/shop"
              "markers/power-aisle.png" eq_refl eq_refl)
    as (H1 & _ & H3 & _).
  destruct (url_builders_normalise_slashes None "/shop"
              "models/hotel.glb" eq_refl eq_refl)
    as (_ & H2 & _ & H4 & _ & H6).
  split; [|split].
  - change ("/markers/power-aisle.png")
      with ("/" +:+ "markers/power-aisle.png").
    rewrite H1. change (Some "/shop/") with (Some ("/shop" +:+ "/")).
    rewrite H3. reflexivity.
  - reflexivity.
  - by destruct (H6 eq_refl) as [-> _].
Defined.

(** The URL [buildPublicUrl] builds starts with a slash unless the base
    path is usable and does not start with one itself. *)
Theorem buildPublicUrl_absolute_iff (bp : option string) (r : string) :
  startsWithSlash (buildPublicUrl bp r) = true
  <-> usableBase bp = false \/ from_option startsWithSlash false bp = true.
Proof.
  unfold buildPublicUrl, usableBase.
  destruct bp as [base|]; [|cbn; tauto].
  destruct (Str.truthy base && negb (String.eqb base "/")) eqn:Huse;
    [|cbn; tauto].
  cbn [from_option].
  destruct base as [|c b']; [done|].
  destruct b' as [|c' b''].
  - apply andb_true_iff in Huse as [_ Hne].
    apply negb_true_iff, String.eqb_neq in Hne.
    assert (Hc : Str.dropTrailingSlash (String c "") = String c "").
    { destruct c as [[] [] [] [] [] [] [] []]; try reflexivity. done. }
    rewrite Hc, append_cons. split; [by right|]. by intros [?|?].
  - rewrite dropTrailingSlash_cons by done. rewrite append_cons.
    split; [by right|]. by intros [?|?].
Qed.

(** Whenever the URL builders put the base path in front, the build
    configuration carries it as [basePath] and as [assetPrefix]; the two
    part ways on exactly one base path, "/", which the configuration
    takes and the builders ignore. *)
Theorem config_takes_every_base_path_the_builders_use (bp : option string) :
  NextConfig.basePath (nextConfig bp) = NextConfig.assetPrefix (nextConfig bp)
  /\ (usableBase bp = true -> NextConfig.basePath (nextConfig bp) = bp)
  /\ (usableBase bp = false /\ NextConfig.basePath (nextConfig bp) <> None
      <-> bp = Some "/").
Proof.
  unfold nextConfig, usableBase, truthy_opt.
  destruct bp as [b|]; cbn; [|by intuition].
  split; [by destruct (Str.truthy b)|].
  split; [by intros [-> _]%andb_true_iff|].
  split.
  - intros [Hu Hne]. destruct (Str.truthy b) eqn:Ht; [|done].
    cbn in Hu. apply negb_false_iff, String.eqb_eq in Hu. by subst.
  - intros [= ->]. by cbn.
Qed.

(** ** More on marker discovery *)

Lemma setFromObject_no_vertex (o : Object3D.t) (pw : Vector3.t) :
  Object3D.vertexCount o = 0%nat ->
  Object3D.setFromObject pw o = Box3.makeEmpty.
Proof.
  intros Hcount. unfold Object3D.setFromObject.
  rewrite expandByObject_worldPoints.
  pose proof (worldPoints_length o pw) as Hlen. rewrite Hcount in Hlen.
  by destruct (Object3D.worldPoints pw o).
Qed.

Lemma traverse_child (o c : Object3D.t) (pw : Vector3.t) :
  c ∈ Object3D.children o ->
  (Object3D.matrixWorld pw o, c) ∈ Object3D.traverse pw o.
Proof.
  destruct o as [n v u i pos geo cs]. cbn [Object3D.children
    Object3D.traverse Object3D.matrixWorld Object3D.position].
  intros Hc. right. induction cs as [|c' cs IH]; [by apply elem_of_nil in Hc|].
  apply elem_of_app. apply elem_of_cons in Hc as [->|Hc]; [left|right; auto].
  destruct c'. left.
Qed.

(** Every candidate is a node of the scene, named and visible. *)
Lemma gatherCandidates_nodes (g : Vector3.t) (scene : Object3D.t) x :
  x ∈ gatherCandidates g scene ->
  x ∈ Object3D.traverse g scene
  /\ Str.truthy (Object3D.name x.2) = true
  /\ Object3D.visible x.2 = true.
Proof.
  unfold gatherCandidates.
  destruct (length _ =? 0)%nat.
  - intros [Hin Hf]%list_elem_of_In%filter_In.
    apply list_elem_of_In in Hin.
    apply andb_true_iff in Hf as [Hf _].
    by apply andb_true_iff in Hf as [? ?].
  - intros (c & -> & [Hin Hf]%list_elem_of_In%filter_In)%list_elem_of_fmap.
    apply list_elem_of_In in Hin.
    apply andb_true_iff in Hf as [? ?].
    split; [by apply traverse_child|done].
Qed.

Lemma firstOfName_sublist l : forall used, firstOfName used l `sublist_of` l.
Proof.
  induction l as [|x l IH]; intros used; cbn; [done|].
  destruct (decide _); [by apply sublist_cons|by apply sublist_skip].
Qed.

Lemma List_filter_sublist {A} (f : A -> bool) (l : list A) :
  List.filter f l `sublist_of` l.
Proof.
  induction l as [|x l IH]; cbn; [done|].
  destruct (f x); [by apply sublist_skip|by apply sublist_cons].
Qed.

Lemma acceptedCandidates_sublist rt cands :
  acceptedCandidates rt cands `sublist_of` cands.
Proof.
  unfold acceptedCandidates.
  etrans; [apply sublist_take|].
  etrans; [apply firstOfName_sublist|]. apply List_filter_sublist.
Qed.

Section MoreDiscovery.
Variable rt : Q -> Q.
Variable bp : option string.

Lemma acceptedMarkers_ids scene :
  Marker.id <$> acceptedMarkers rt bp scene
  = (fun x => Object3D.uuid x.2)
      <$> acceptedCandidates rt (gatherCandidates (groundOffset scene) scene).
Proof.
  induction (acceptedMarkers_Forall2 rt bp scene) as [|x m l k Hm _ IH];
    [done|].
  cbn. rewrite IH. f_equal.
  by destruct (candidateMarker_Some _ _ _ _ Hm) as (-> & _).
Qed.

(** The markers handed to [onMarkers] come in the order of the
    candidates: their ids are the candidates' uuids with some left out,
    none moved and none repeated more often than among the candidates. *)
Theorem markers_keep_scene_order (scene : Object3D.t) :
  (Marker.id <$> discover rt bp scene)
    `sublist_of` ((fun x => Object3D.uuid x.2)
                    <$> gatherCandidates (groundOffset scene) scene).
Proof.
  unfold discover.
  destruct (applyOverride_frame bp (acceptedMarkers rt bp scene)) as (-> & _).
  rewrite acceptedMarkers_ids. apply fmap_sublist, acceptedCandidates_sublist.
Qed.

Lemma discover_source scene m :
  m ∈ discover rt bp scene ->
  exists x s,
    x ∈ gatherCandidates (groundOffset scene) scene
    /\ computeObjectSphere rt x = Some s
    /\ Marker.id m = Object3D.uuid x.2
    /\ Marker.center m = Sphere.center s
    /\ Marker.radius m = Sphere.radius s
    /\ Num.isFinite (Sphere.radius s) = true.
Proof.
  intros Hm. apply list_elem_of_lookup in Hm as [i Hi].
  unfold discover in Hi.
  destruct (applyOverride_frame bp (acceptedMarkers rt bp scene))
    as (Hid & Hcen & Hrad).
  assert (Hlen : is_Some (acceptedMarkers rt bp scene !! i)).
  { apply lookup_lt_is_Some. rewrite <- (applyOverride_length bp).
    by apply lookup_lt_Some in Hi. }
  destruct Hlen as [m' Hm'].
  assert (Marker.id m = Marker.id m' /\ Marker.center m = Marker.center m'
          /\ Marker.radius m = Marker.radius m') as (-> & -> & ->).
  { apply (f_equal (fun l => l !! i)) in Hid.
    apply (f_equal (fun l => l !! i)) in Hcen.
    apply (f_equal (fun l => l !! i)) in Hrad.
    rewrite !list_lookup_fmap, Hi, Hm' in Hid.
    rewrite !list_lookup_fmap, Hi, Hm' in Hcen.
    rewrite !list_lookup_fmap, Hi, Hm' in Hrad.
    cbn in Hid, Hcen, Hrad.
    injection Hid as ->. injection Hcen as ->. injection Hrad as ->. done. }
  destruct (Forall2_lookup_r _ _ _ _ _ (acceptedMarkers_Forall2 rt bp scene)
              Hm') as (x & Hx & Hmk).
  apply list_elem_of_lookup_2 in Hx.
  pose proof (elem_of_sublist _ _ _ Hx
                (acceptedCandidates_sublist rt _)) as Hx'.
  unfold candidateMarker, sphereOk in Hmk.
  destruct (computeObjectSphere rt x) as [s|] eqn:Hs; [|done].
  destruct (negb (Num.isFinite (Sphere.radius s)) || _) eqn:Hbad; [done|].
  cbn in Hmk. injection Hmk as <-.
  apply orb_false_iff in Hbad as [Hf _]. apply negb_false_iff in Hf.
  exists x, s. done.
Qed.
End MoreDiscovery.

Section MoreDiscovery2.

Variable rt : Q -> Q.
Variable bp : option string.

(** Every marker handed to [onMarkers] carries the uuid of a node of the
    scene that has a name, is visible and holds at least one vertex in
    its subtree; a scene without a named, visible node yields no marker
    at all. *)
Theorem markers_come_from_named_visible_nodes (scene : Object3D.t) :
  Forall (fun m =>
            exists x,
              x ∈ Object3D.traverse (groundOffset scene) scene
              /\ Marker.id m = Object3D.uuid x.2
              /\ Str.truthy (Object3D.name x.2) = true
              /\ Object3D.visible x.2 = true
              /\ (0 < Object3D.vertexCount x.2)%nat)
    (discover rt bp scene)
  /\ (Forall (fun x => Str.truthy (Object3D.name x.2)
                       && Object3D.visible x.2 = false)
        (Object3D.traverse (groundOffset scene) scene) ->
      discover rt bp scene = []).
Proof.
  assert (Hall : Forall (fun m =>
            exists x,
              x ∈ Object3D.traverse (groundOffset scene) scene
              /\ Marker.id m = Object3D.uuid x.2
              /\ Str.truthy (Object3D.name x.2) = true
              /\ Object3D.visible x.2 = true
              /\ (0 < Object3D.vertexCount x.2)%nat)
    (discover rt bp scene)).
  { apply Forall_forall. intros m Hm.
    destruct (discover_source rt bp scene m Hm)
      as (x & s & Hx & Hs & Hid & _).
    destruct (gatherCandidates_nodes _ _ _ Hx) as (Ht & Hn & Hv).
    exists x. repeat split; try done.
    destruct (Nat.eq_dec (Object3D.vertexCount x.2) 0%nat) as [Hz|Hnz];
      [|lia].
    unfold computeObjectSphere in Hs.
    rewrite setFromObject_no_vertex in Hs by done. done. }
  split; [done|]. intros Hnone.
  destruct (discover rt bp scene) as [|m ms]; [done|].
  apply Forall_cons in Hall as [(x & Hx & _ & Hn & Hv & _) _].
  rewrite Forall_forall in Hnone. specialize (Hnone x Hx).
  by rewrite Hn, Hv in Hnone.
Qed.

Lemma overrideTarget_idem (m : Marker.t) :
  overrideTarget bp (overrideTarget bp m) = overrideTarget bp m.
Proof.
  unfold overrideTarget. cbn [Marker.id Marker.center Marker.radius
    Marker.description]. f_equal.
  destruct (negb (truthy_opt (Marker.description m))) eqn:H; [done|].
  by rewrite H.
Qed.

Lemma overrideTarget_matches (m : Marker.t) :
  isOverrideMatch (overrideTarget bp m).
Proof. reflexivity. Qed.

(** Running the override again changes nothing: the marker it promoted
    is the first match of the second run and already carries the name,
    the image and a description. *)
Theorem applyOverride_idempotent (ms : list Marker.t) :
  applyOverride bp (applyOverride bp ms) = applyOverride bp ms
  /\ (ms = []
      \/ exists i m, applyOverride bp ms !! i = Some m
           /\ Marker.name m = "Power Aisle"
           /\ Marker.image m = Some (overrideImage bp)
           /\ truthy_opt (Marker.description m) = true
           /\ overrideIndex (applyOverride bp ms) = Some i).
Proof.
  destruct (overrideIndex ms) as [i|] eqn:Hidx.
  2:{ apply overrideIndex_nil in Hidx. subst. split; [done|by left]. }
  pose proof (overrideIndex_lt _ _ Hidx) as Hlt.
  destruct (lookup_lt_is_Some_2 ms i Hlt) as [m Hm].
  assert (Hi : applyOverride bp ms !! i = Some (overrideTarget bp m)).
  { by rewrite (applyOverride_target _ _ _ Hidx), Hm. }
  assert (Hidx' : overrideIndex (applyOverride bp ms) = Some i).
  { apply (overrideIndex_first _ i (overrideTarget bp m)); [done| |].
    - apply overrideTarget_matches.
    - intros j y Hj Hy.
      rewrite (applyOverride_other bp ms i j Hidx) in Hy by lia.
      unfold overrideIndex in Hidx.
      destruct (list_find isOverrideMatch ms) as [[k z]|] eqn:Hfind.
      + injection Hidx as ->.
        apply list_find_Some in Hfind as (_ & _ & Hfirst).
        by apply (Hfirst j y).
      + destruct (0 <? length ms)%nat; [|done]. injection Hidx as <-. lia. }
  split.
  - unfold applyOverride at 1. rewrite Hidx'.
    unfold applyOverride. rewrite Hidx.
    apply list_eq. intros j. destruct (decide (j = i)) as [->|Hne].
    + rewrite !list_lookup_alter_eq, Hm. cbn. by rewrite overrideTarget_idem.
    + by rewrite !list_lookup_alter_ne.
  - right. exists i, (overrideTarget bp m). split; [done|].
    split; [done|]. split; [done|]. split; [|done].
    cbn. by destruct (truthy_opt (Marker.description m)) eqn:H.
Qed.
End MoreDiscovery2.

Lemma filter_length_0 {A} (f : A -> bool) (l : list A) :
  (length (List.filter f l) =? 0)%nat = negb (existsb f l).
Proof.
  induction l as [|x l IH]; [done|]. cbn. by destruct (f x).
Qed.

Lemma gatherCandidates_children g scene x :
  existsb eligible (Object3D.children scene) = true ->
  x ∈ gatherCandidates g scene ->
  x.1 = Object3D.matrixWorld g scene /\ x.2 ∈ Object3D.children scene.
Proof.
  intros Hex. unfold gatherCandidates. cbv zeta.
  rewrite length_fmap, filter_length_0.
  change (fun c => Str.truthy (Object3D.name c) && Object3D.visible c)
    with eligible.
  rewrite Hex. cbn [negb].
  intros (c & -> & [Hin _]%list_elem_of_In%filter_In)%list_elem_of_fmap.
  split; [done|]. by apply list_elem_of_In.
Qed.

Lemma gatherCandidates_meshes g scene x :
  existsb eligible (Object3D.children scene) = false ->
  x ∈ gatherCandidates g scene ->
  x ∈ Object3D.traverse g scene /\ Object3D.isMesh x.2 = true.
Proof.
  intros Hex. unfold gatherCandidates. cbv zeta.
  rewrite length_fmap, filter_length_0.
  change (fun c => Str.truthy (Object3D.name c) && Object3D.visible c)
    with eligible.
  rewrite Hex. cbn [negb].
  intros [Hin Hf]%list_elem_of_In%filter_In.
  apply list_elem_of_In in Hin. by apply andb_true_iff in Hf as [_ ?].
Qed.

Section Shadowing.
Variable rt : Q -> Q.
Variable bp : option string.

(** As soon as one child of the scene has a name and is visible, every
    marker comes from a child of the scene, so that named meshes deeper
    in the tree get none; only when no child is eligible do the markers
    come from meshes anywhere in the tree. *)
Theorem eligible_child_shadows_nested_meshes (scene : Object3D.t) :
  let ms := discover rt bp scene in
  (existsb eligible (Object3D.children scene) = true ->
   Forall (fun m => exists c, c ∈ Object3D.children scene
                              /\ Marker.id m = Object3D.uuid c
                              /\ eligible c = true) ms
   /\ (length ms <= length (Object3D.children scene))%nat)
  /\ (existsb eligible (Object3D.children scene) = false ->
      Forall (fun m => exists x, x ∈ Object3D.traverse (groundOffset scene) scene
                                 /\ Marker.id m = Object3D.uuid x.2
                                 /\ Object3D.isMesh x.2 = true) ms).
Proof.
  cbv zeta. split; intros Hex.
  - split.
    + apply Forall_forall. intros m Hm.
      destruct (discover_source rt bp scene m Hm)
        as (x & s & Hx & _ & Hid & _).
      destruct (gatherCandidates_children _ _ _ Hex Hx) as [_ Hc].
      exists x.2. split; [done|]. split; [done|].
      destruct (gatherCandidates_nodes _ _ _ Hx) as (_ & Hn & Hv).
      unfold eligible. by rewrite Hn, Hv.
    + unfold discover. rewrite applyOverride_length.
      rewrite <- (Forall2_length _ _ _ (acceptedMarkers_Forall2 rt bp scene)).
      etrans; [apply sublist_length, acceptedCandidates_sublist|].
      unfold gatherCandidates. cbv zeta.
      rewrite length_fmap, filter_length_0.
      change (fun c => Str.truthy (Object3D.name c) && Object3D.visible c)
        with eligible.
      rewrite Hex. cbn [negb]. rewrite length_fmap.
      apply sublist_length, List_filter_sublist.
  - apply Forall_forall. intros m Hm.
    destruct (discover_source rt bp scene m Hm)
      as (x & s & Hx & _ & Hid & _).
    destruct (gatherCandidates_meshes _ _ _ Hex Hx) as [? ?].
    by exists x.
Qed.
End Shadowing.

(** ** More on the fly-to animator *)

Lemma ease_Fin (k : Q) : ease (Fin k) = Fin (k * k * (3 + - (2 * k))).
Proof. reflexivity. Qed.




Lemma min_cases (x y : Q) :
  exists m, Num.min (Fin x) (Fin y) = Fin m
            /\ (m == x \/ m == y) /\ m <= x /\ m <= y.
Proof.
  cbn -[Qle_bool]. destruct (Qle_bool x y) eqn:H.
  - apply Qle_bool_iff in H. exists x. repeat split; auto; lra.
  - assert (~ x <= y) by (rewrite <- Qle_bool_iff; congruence).
    exists y. repeat split; auto; lra.
Qed.

Lemma within_0_Qeq (p q : Q) : Num.within 0 (Fin p) (Fin q) -> p == q.
Proof.
  unfold Num.within. intros H. apply Qabs_Qle_condition in H. lra.
Qed.

Lemma length_zero (rt : Q -> Q) (a b c : Q) :
  (forall q, q == 0 -> rt q == 0) ->
  a == 0 -> b == 0 -> c == 0 ->
  exists l, Vector3.length rt (Vector3.mk (Fin a) (Fin b) (Fin c)) = Fin l
            /\ l == 0.
Proof.
  intros Hrt Ha Hb Hc. unfold Vector3.length.
  cbn [Vector3.x Vector3.y Vector3.z Num.mul Num.add Num.sqrt].
  assert (Hs : a * a + b * b + c * c == 0) by (rewrite Ha, Hb, Hc; ring).
  assert (Qle_bool 0 (a * a + b * b + c * c) = true) as ->
    by (apply Qle_bool_iff; lra).
  eexists. split; [reflexivity|]. by apply Hrt.
Qed.

Section FlightMore.

Variable rt : Q -> Q.
Variable upd : OrbitControls.t -> Vector3.t -> Vector3.t.

(** A flight whose clock or duration is [NaN] never ends: [Math.min]
    makes the clock [NaN] and [NaN >= d] is false. *)
Lemma advance_poisoned delta w a :
  World.animRef w = Some a ->
  Flight.t a = NaN \/ Flight.d a = NaN ->
  exists a',
    World.animRef (advance upd delta w) = Some a'
    /\ Flight.t a' = NaN /\ Flight.d a' = Flight.d a
    /\ Flight.onComplete a' = Flight.onComplete a
    /\ World.called (advance upd delta w) = World.called w.
Proof.
  intros Ha Hnan. unfold advance. rewrite Ha. cbv zeta.
  assert (Hmin : Num.min (Num.add (Flight.t a) delta) (Flight.d a) = NaN).
  { destruct Hnan as [-> | ->]; [done|].
    by destruct (Num.add (Flight.t a) delta). }
  rewrite Hmin. destruct a as [s st e et t d oc].
  cbn [Flight.t Flight.d Flight.set_t Flight.onComplete Num.geb].
  assert (Num.geb NaN d = false) as -> by by destruct d.
  cbn [World.animRef World.called]. eexists. by split.
Qed.

Lemma run_poisoned deltas : forall w a,
  World.animRef w = Some a ->
  Flight.t a = NaN \/ Flight.d a = NaN ->
  exists a',
    World.animRef (run rt upd (frames deltas) w) = Some a'
    /\ Flight.onComplete a' = Flight.onComplete a
    /\ World.called (run rt upd (frames deltas) w) = World.called w.
Proof.
  induction deltas as [|delta deltas IH]; intros w a Ha Hnan.
  - by exists a.
  - destruct (advance_poisoned delta w a Ha Hnan)
      as (a' & Ha' & Ht' & Hd' & Hoc' & Hcalled').
    destruct (IH (advance upd delta w) a' Ha' (or_introl Ht'))
      as (a'' & Ha'' & Hoc'' & Hcalled'').
    exists a''. change (run rt upd (frames (delta :: deltas)) w)
      with (run rt upd (frames deltas) (advance upd delta w)).
    split; [done|]. split; congruence.
Qed.

(** A flight requested with duration [NaN] never completes, whatever
    frames follow, and so does a flight in progress after one frame whose
    delta is [NaN]: the flight record stays, with its continuation, and
    nothing is called. *)
Theorem nan_flight_never_completes target distance cb deltas w :
  (let w' := run rt upd (frames deltas)
               (flyTo rt target distance (Some NaN) cb w) in
   exists a, World.animRef w' = Some a /\ Flight.onComplete a = cb
             /\ World.called w' = World.called w)
  /\ (forall a, World.animRef w = Some a ->
      let w' := run rt upd (frames (NaN :: deltas)) w in
      exists a', World.animRef w' = Some a'
                 /\ Flight.onComplete a' = Flight.onComplete a
                 /\ World.called w' = World.called w).
Proof.
  split.
  - cbv zeta.
    edestruct (run_poisoned deltas
                 (flyTo rt target distance (Some NaN) cb w))
      as (a' & Ha' & Hoc' & Hcalled'); [reflexivity|by right|].
    exists a'. split; [done|]. split; [exact Hoc'|exact Hcalled'].
  - intros a Ha. cbv zeta.
    change (run rt upd (frames (NaN :: deltas)) w)
      with (run rt upd (frames deltas) (advance upd NaN w)).
    assert (Hadd : forall x, Num.add x NaN = NaN) by by intros [].
    assert (exists a1, World.animRef (advance upd NaN w) = Some a1
              /\ Flight.t a1 = NaN
              /\ Flight.onComplete a1 = Flight.onComplete a
              /\ World.called (advance upd NaN w) = World.called w)
      as (a1 & Ha1 & Ht1 & Hoc1 & Hcalled1).
    { unfold advance. rewrite Ha. cbv zeta. rewrite Hadd.
      destruct a as [s st e et t d oc].
      cbn [Flight.t Flight.d Flight.set_t Flight.onComplete Num.min].
      assert (Num.geb NaN d = false) as -> by by destruct d.
      cbn [World.animRef World.called]. eexists. by split. }
    destruct (run_poisoned deltas _ a1 Ha1 (or_introl Ht1))
      as (a' & Ha' & Hoc' & Hcalled').
    exists a'. split; [done|]. split; congruence.
Qed.


(** With the camera numerically on the orbit target the direction of a
    flight is the fallback (1, 0.5, 1), normalised. *)
Theorem flyDirection_falls_back_at_target w :
  (forall q, q == 0 -> rt q == 0) ->
  Vector3.within 0 (World.camera_position w) (orbitTarget w) ->
  flyDirection rt w
  = Vector3.normalize rt (Vector3.mk (Fin 1) (Fin (1 # 2)) (Fin 1)).
Proof.
  intros Hrt Hat. unfold flyDirection. fold (orbitTarget w).
  destruct (World.camera_position w) as [cx cy cz].
  destruct (orbitTarget w) as [tx ty tz].
  destruct Hat as (Hx & Hy & Hz). cbn [Vector3.x Vector3.y Vector3.z] in *.
  destruct cx as [cx| | |], tx as [tx| | |]; try done.
  destruct cy as [cy| | |], ty as [ty| | |]; try done.
  destruct cz as [cz| | |], tz as [tz| | |]; try done.
  apply within_0_Qeq in Hx, Hy, Hz.
  cbv zeta. unfold Vector3.normalize at 1 2 3. cbv zeta.
  unfold Vector3.subVectors.
  cbn [Vector3.x Vector3.y Vector3.z Num.sub Num.neg Num.add].
  destruct (length_zero rt (cx + - tx) (cy + - ty) (cz + - tz) Hrt)
    as (l & -> & Hl); [lra..|].
  assert (Hfalsy : Num.truthy (Fin l) = false).
  { cbn -[Qeq_bool]. apply negb_false_iff, Qeq_bool_iff, Hl. }
  rewrite Hfalsy. unfold Vector3.divideScalar.
  change (Num.div (Fin 1) (Fin 1)) with (Fin (1 / 1)).
  unfold Vector3.multiplyScalar at 1 2 3.
  cbn [Vector3.x Vector3.y Vector3.z Num.mul].
  destruct (length_zero rt ((cx + - tx) * (1 / 1)) ((cy + - ty) * (1 / 1))
              ((cz + - tz) * (1 / 1)) Hrt) as (l' & -> & Hl'0);
    [rewrite ?Hx, ?Hy, ?Hz; ring..|].
  cbn [Num.isFinite negb orb Num.eqb].
  by apply Qeq_bool_iff in Hl'0 as ->.
Qed.
(** The duration a flight is installed with. *)
Lemma installed_duration q :
  exists dq, Num.max (Fin (1 # 5)) (Fin q) = Fin dq
             /\ dq == Qmax (1 # 5) q /\ 0 < dq.
Proof.
  cbn -[Qle_bool]. destruct (Qle_bool (1 # 5) q) eqn:Hle.
  - apply Qle_bool_iff in Hle. exists q. split; [done|].
    split; [by rewrite Q.max_r|lra].
  - assert (~ (1 # 5) <= q) by (rewrite <- Qle_bool_iff; congruence).
    exists (1 # 5). split; [done|]. split; [rewrite Q.max_l; lra|lra].
Qed.

(** One frame of a flight whose clock and duration are finite, before the
    clock reaches the duration. *)
Lemma advance_before_end w a t0 dq delta :
  World.animRef w = Some a -> Flight.t a = Fin t0 -> Flight.d a = Fin dq ->
  0 < dq -> t0 + delta < dq ->
  advance upd (Fin delta) w
  = let e := ease (Fin ((t0 + delta) / dq)) in
    let pos := Vector3.lerpVectors (Flight.startPos a) (Flight.endPos a) e in
    let tgt :=
      Vector3.lerpVectors (Flight.startTarget a) (Flight.endTarget a) e in
    let ctl :=
      (fun c => OrbitControls.mk tgt (OrbitControls.minDistance c))
        <$> World.controlsRef w in
    World.mk (match ctl with Some c => upd c pos | None => pos end) ctl
      (Some (Flight.set_t a (Fin (t0 + delta)))) (World.called w).
Proof.
  intros Ha Ht Hd Hpos Hlt. unfold advance. rewrite Ha.
  destruct a as [s st e et t d oc]. cbn in Ht, Hd. subst t d.
  cbn [Flight.t Flight.d Flight.set_t Flight.startPos Flight.endPos
       Flight.startTarget Flight.endTarget Flight.onComplete Num.add].
  assert (Hmin : Num.min (Fin (t0 + delta)) (Fin dq) = Fin (t0 + delta)).
  { cbn -[Qle_bool].
    by assert (Qle_bool (t0 + delta) dq = true) as ->
      by (apply Qle_bool_iff; lra). }
  rewrite Hmin.
  assert (Hdiv : Num.div (Fin (t0 + delta)) (Fin dq)
                 = Fin ((t0 + delta) / dq)).
  { cbn -[Qeq_bool]. assert (Qeq_bool dq 0 = false) as ->; [|done].
    apply not_true_iff_false. rewrite Qeq_bool_iff. lra. }
  rewrite Hdiv.
  assert (Hge : Num.geb (Fin (t0 + delta)) (Fin dq) = false).
  { unfold Num.geb. cbn -[Qle_bool]. apply not_true_iff_false.
    rewrite Qle_bool_iff. lra. }
  by rewrite Hge.
Qed.

(** One frame whose delta is half of the installed duration brings the
    ease to one half: the camera gets the position halfway along the
    flight, passed through the update of the orbit controls when they are
    mounted, the orbit target gets the point halfway between the old and
    the new target, the flight goes on and nothing is called. *)
Theorem half_time_frame_eases_to_one_half
    (endTarget : Vector3.t) (distance : num) (dur : option Q)
    (onComplete : option Callback) (delta : Q) (w : World.t) :
  2 * delta == Qmax (1 # 5) (default (6 # 5) dur) ->
  let w1 := flyTo rt endTarget distance (Fin <$> dur) onComplete w in
  let w2 := advance upd (Fin delta) w1 in
  exists a e t,
    World.animRef w1 = Some a
    /\ e == 1 # 2 /\ t == delta
    /\ (let pos :=
          Vector3.lerpVectors (Flight.startPos a) (Flight.endPos a) (Fin e) in
        let tgt :=
          Vector3.lerpVectors (Flight.startTarget a) (Flight.endTarget a)
            (Fin e) in
        World.controlsRef w2
        = (fun c => OrbitControls.mk tgt (OrbitControls.minDistance c))
            <$> World.controlsRef w
        /\ World.camera_position w2
           = match World.controlsRef w2 with
             | Some c => upd c pos
             | None => pos
             end)
    /\ World.animRef w2 = Some (Flight.set_t a (Fin t))
    /\ World.called w2 = World.called w.
Proof.
  intros Hdelta. cbv zeta.
  destruct (installed_duration (default (6 # 5) dur))
    as (dq & Hdq & Hdq' & Hpos).
  set (w1 := flyTo rt endTarget distance (Fin <$> dur) onComplete w).
  destruct (World.animRef w1) as [a|] eqn:Ha; [|done].
  assert (Ht : Flight.t a = Fin 0) by (by injection Ha as <-).
  assert (Hd : Flight.d a = Fin dq).
  { injection Ha as <-. cbn [Flight.d]. rewrite <- Hdq. by destruct dur. }
  assert (Hctl : World.controlsRef w1 = World.controlsRef w) by done.
  assert (Hcalled : World.called w1 = World.called w) by done.
  rewrite (advance_before_end w1 a 0 dq delta Ha Ht Hd Hpos) by lra.
  cbv zeta. cbn [World.camera_position World.controlsRef World.animRef
                 World.called].
  rewrite Hctl, Hcalled, ease_Fin.
  assert (Hk : (0 + delta) / dq == 1 # 2).
  { apply Qmult_inj_r with (z := dq); [lra|].
    rewrite Qmult_comm, Qmult_div_r by lra. lra. }
  set (k := (0 + delta) / dq) in *.
  exists a, (k * k * (3 + - (2 * k))), (0 + delta). split; [done|].
  split; [rewrite Hk; reflexivity|]. split; [lra|].
  split; [split; reflexivity|]. by split.
Qed.

End FlightMore.

Lemma half_time_frame_eases_to_one_half_witness :
  World.called
    (advance update_in_place (Fin (1 # 2))
       (flyTo sqrt6 Vector3.zero (Fin 1) (Some (Fin 1)) (Some 7%nat)
          worldOfPage)) = [].
Proof.
  destruct (half_time_frame_eases_to_one_half sqrt6 update_in_place
              Vector3.zero (Fin 1) (Some 1) (Some 7%nat) (1 # 2) worldOfPage)
    as (a & e & t & _ & _ & _ & _ & _ & H).
  - reflexivity.
  - exact H.
Defined.

Lemma sqrt6_zero (q : Q) : q == 0 -> sqrt6 q == 0.
Proof.
  intros Hq. unfold sqrt6.
  assert (Hn : Qnum q = 0%Z).
  { unfold Qeq in Hq. cbn in Hq. lia. }
  rewrite Hn. reflexivity.
Qed.

Lemma flyDirection_falls_back_at_target_witness :
  flyDirection sqrt6 worldAtTarget
  = Vector3.normalize sqrt6 (Vector3.mk (Fin 1) (Fin (1 # 2)) (Fin 1)).
Proof.
  apply (flyDirection_falls_back_at_target sqrt6 worldAtTarget).
  - exact sqrt6_zero.
  - repeat split; discriminate.
Defined.

(** ** The scene, the markers and the panel *)

Lemma max_cases (x y : Q) :
  exists m, Num.max (Fin x) (Fin y) = Fin m
            /\ (m == x \/ m == y) /\ x <= m /\ y <= m.
Proof.
  cbn -[Qle_bool]. destruct (Qle_bool x y) eqn:H.
  - apply Qle_bool_iff in H. exists y. repeat split; auto; lra.
  - assert (~ x <= y) by (rewrite <- Qle_bool_iff; congruence).
    exists x. repeat split; auto; lra.
Qed.

Lemma ltb_Fin (p q : Q) : Num.ltb (Fin p) (Fin q) = true <-> p < q.
Proof.
  cbn -[Qle_bool]. rewrite negb_true_iff, <- not_true_iff_false, Qle_bool_iff.
  lra.
Qed.

Lemma leb_Fin (p q : Q) : Num.leb (Fin p) (Fin q) = true <-> p <= q.
Proof. apply Qle_bool_iff. Qed.

(** For every finite radius the fog starts at 10 or later and ends at
    160 or later, strictly after its start. *)
Theorem fog_starts_before_it_ends (R : Q) (c : Vector3.t) :
  let bounds := BoundsInfo.mk (Fin R) c in
  Num.leb (Fin 10) (fogNear bounds) = true
  /\ Num.leb (Fin 160) (fogFar bounds) = true
  /\ Num.ltb (fogNear bounds) (fogFar bounds) = true.
Proof.
  cbv zeta. unfold fogNear, fogFar. cbn [BoundsInfo.radius Num.mul].
  destruct (max_cases (R * 2) 10) as (n & -> & Hn & Hn1 & Hn2).
  destruct (max_cases (R * 16) 160) as (f & -> & Hf & Hf1 & Hf2).
  rewrite !leb_Fin, ltb_Fin. repeat split; try done.
  destruct Hn; lra.
Qed.


Section FocusFacts.

Variable rt : Q -> Q.


(** The marker a click focuses is the one the panel shows, as long as
    the markers' ids are distinct. *)
Theorem focused_marker_is_selected (markers : list Marker.t) bounds m w :
  NoDup (Marker.id <$> markers) -> m ∈ markers ->
  selected markers (focusMarker rt bounds m w).1 = Some m.
Proof.
  intros Hnd Hin. cbn [focusMarker fst selected].
  apply list_elem_of_lookup in Hin as (i & Hi).
  destruct (list_find (fun m0 => Marker.id m0 = Marker.id m) markers)
    as [[j m']|] eqn:Hfind.
  - apply list_find_Some in Hfind as (Hj & Hid & _). cbn. f_equal.
    assert (i = j) as ->; [|congruence].
    eapply NoDup_lookup; [exact Hnd|..];
      rewrite list_lookup_fmap; [by rewrite Hi|by rewrite Hj, <- Hid].
  - apply list_find_None in Hfind.
    eapply Forall_lookup_1 in Hfind; [|exact Hi]. done.
Qed.
End FocusFacts.

Lemma markerFrame_between (hover : bool) (d s : Q) :
  0 <= d -> 1 <= s -> s <= 13 # 10 ->
  exists s', markerFrame hover (Fin d) (Fin s) = Fin s'
             /\ 1 <= s' /\ s' <= 13 # 10
             /\ (1 # 8 <= d -> s' == markerTarget hover).
Proof.
  intros Hd Hs1 Hs2. unfold markerFrame. cbv zeta.
  destruct (min_cases 1 (d * 8)) as (al & Hal & Hor & Ha1 & Ha2).
  change (Num.mul (Fin d) (Fin 8)) with (Fin (d * 8)). rewrite Hal.
  assert (0 <= al) by (destruct Hor; lra).
  assert (Hstep : forall tg : Q, 1 <= tg -> tg <= 13 # 10 ->
            1 <= s + (tg + - s) * al /\ s + (tg + - s) * al <= 13 # 10
            /\ (1 # 8 <= d -> s + (tg + - s) * al == tg)).
  { intros tg Ht1 Ht2.
    destruct (Qlt_le_dec s tg).
    - assert (0 <= (tg - s) * al) by (apply Qmult_le_0_compat; lra).
      assert (0 <= (tg - s) * (1 - al)) by (apply Qmult_le_0_compat; lra).
      repeat split; try lra. intros Hd8.
      assert (al == 1) as -> by (destruct Hor; lra). ring.
    - assert (0 <= (s - tg) * al) by (apply Qmult_le_0_compat; lra).
      assert (0 <= (s - tg) * (1 - al)) by (apply Qmult_le_0_compat; lra).
      repeat split; try lra. intros Hd8.
      assert (al == 1) as -> by (destruct Hor; lra). ring. }
  destruct hover; cbn [Num.sub Num.neg Num.add Num.mul markerTarget];
    eexists; (split; [reflexivity|]); apply Hstep; lra.
Qed.

(** Whatever pointer events and frames with non-negative deltas a marker
    goes through, its scale stays between 1 and 1.3, and a frame of 1/8
    or longer puts it on the value it is heading for. *)
Theorem marker_scale_stays_in_range (evs : list MarkerEvent) :
  Forall gentle evs ->
  let st := fold_left markerStep evs markerStart in
  exists s, st.2 = Fin s /\ 1 <= s /\ s <= 13 # 10
    /\ forall d, 1 # 8 <= d ->
         Num.eqb (markerStep st (Frame (Fin d))).2 (Fin (markerTarget st.1))
         = true.
Proof.
  intros Hall. cbv zeta.
  assert (Hinv : exists s, (fold_left markerStep evs markerStart).2 = Fin s
                           /\ 1 <= s /\ s <= 13 # 10).
  { assert (H0 : exists s, markerStart.2 = Fin s /\ 1 <= s /\ s <= 13 # 10)
      by (exists 1; repeat split; [lra|by vm_compute]).
    revert H0. generalize markerStart.
    induction Hall as [|ev evs Hev _ IH]; intros st H0; [done|].
    cbn [fold_left]. apply IH. destruct H0 as (s & Hs & Hs1 & Hs2).
    destruct st as [h sc]. cbn [snd] in Hs. subst sc.
    destruct ev as [| |[d| | |]]; cbn [gentle] in Hev; try done;
      cbn [markerStep fst snd]; try by exists s.
    destruct (markerFrame_between h d s Hev Hs1 Hs2) as (s' & -> & ? & ? & _).
    by exists s'. }
  destruct Hinv as (s & Hs & Hs1 & Hs2). exists s. do 3 (split; [done|]).
  intros d Hd. destruct (fold_left markerStep evs markerStart) as [h sc].
  cbn [snd] in Hs. subst sc. cbn [markerStep fst snd].
  destruct (markerFrame_between h d s ltac:(lra) Hs1 Hs2)
    as (s' & -> & _ & _ & Hsnap).
  apply Qeq_bool_iff, Hsnap, Hd.
Qed.


Lemma focused_marker_is_selected_witness :
  selected [markerLobby; markerBar]
    (focusMarker sqrt6 initialBounds markerBar worldOfScene).1
  = Some markerBar.
Proof.
  apply (focused_marker_is_selected sqrt6 [markerLobby; markerBar]
           initialBounds markerBar worldOfScene).
  - apply NoDup_cons. split; [|apply NoDup_singleton].
    intros Hin. apply list_elem_of_singleton in Hin. discriminate Hin.
  - right. left.
Defined.

Lemma marker_scale_stays_in_range_witness :
  exists s, (fold_left markerStep hoverThenLeave markerStart).2 = Fin s
            /\ 1 <= s /\ s <= 13 # 10.
Proof.
  destruct (marker_scale_stays_in_range hoverThenLeave)
    as (s & Hs & H1 & H2 & _).
  - repeat constructor; discriminate.
  - exists s. split; [exact Hs|]. split; [exact H1|exact H2].
Defined.

(** ** The animator in binary64 *)

(** A comparison that holds has no [NaN] on either side, and [<] is
    asymmetric. *)
Lemma SFeqb_refl (f : spec_float) :
  f <> S754_nan -> SFeqb f f = true.
Proof.
  destruct f as [s|s| |s m e]; try done; intros _; unfold SFeqb; cbn.
  - by destruct s.
  - rewrite Z.compare_refl, Pos.compare_cont_refl. by destruct s.
Qed.

Lemma SFcompare_antisym (f g : spec_float) :
  SFcompare g f = CompOpp <$> SFcompare f g.
Proof.
  destruct f as [s|s| |s m e], g as [s'|s'| |s' m' e']; cbn;
    try done; try (by destruct s); try (by destruct s');
    try (by destruct s, s').
  assert (Hm : Pos.compare_cont Eq m' m = CompOpp (Pos.compare_cont Eq m m'))
    by (by rewrite Pos.compare_cont_antisym).
  destruct s, s'; cbn; try done; rewrite (Z.compare_antisym e e');
    destruct (e ?= e')%Z; cbn; try done.
  - do 2 f_equal. exact Hm.
  - f_equal. exact Hm.
Qed.

Lemma ltb_not_nan (a b : float) :
  (a <? b)%float = true -> is_nan a = false /\ is_nan b = false.
Proof.
  intros H. rewrite FloatAxioms.ltb_spec in H. unfold is_nan.
  rewrite !FloatAxioms.eqb_spec.
  split; apply negb_false_iff, SFeqb_refl; intros Hn; rewrite Hn in H;
    [done|by destruct (Prim2SF a)].
Qed.

Lemma ltb_asym (a b : float) :
  (a <? b)%float = true -> (b <? a)%float = false.
Proof.
  rewrite !FloatAxioms.ltb_spec. unfold SFltb.
  rewrite (SFcompare_antisym (Prim2SF a) (Prim2SF b)).
  by destruct (SFcompare (Prim2SF a) (Prim2SF b)) as [[]|].
Qed.

Lemma Math_max_lt (a b : float) :
  (a <? b)%float = true -> Float64.Math_max a b = b.
Proof.
  intros H. unfold Float64.Math_max.
  destruct (ltb_not_nan a b H) as [-> ->]. by rewrite H.
Qed.

Lemma Math_max_gt (a b : float) :
  (b <? a)%float = true -> Float64.Math_max a b = a.
Proof.
  intros H. unfold Float64.Math_max.
  destruct (ltb_not_nan b a H) as [-> ->].
  by rewrite (ltb_asym b a H), H.
Qed.

Section Float64Flight.

Import Float64 Float64Notions.
#[local] Open Scope float_scope.

Variable upd : OrbitControls.t -> Vector3.t -> Vector3.t.








(** C7: every flyTo call installs a flight record, whatever the
    arguments.  Its end position is the target plus the viewing direction
    times the clamped distance, [Math.max(distance, minimum + 0.01)] with
    the minimum distance of the mounted orbit controls, 0 without
    controls: a distance below that minimum plus 0.01 is replaced by it,
    a distance above it is kept.  Its duration is
    [Math.max(0.2, duration)], with 1.2 for a duration left out. *)
Theorem C7_flyTo_installs_clamped_flight
    (endTarget : Vector3.t) (distance : float) (duration : option float)
    (onComplete : option Callback) (w : World.t) :
  let lookAt :=
    from_option OrbitControls.target Vector3.zero (World.controlsRef w) in
  let minimum :=
    from_option OrbitControls.minDistance 0 (World.controlsRef w) in
  let direction := viewingDirection (World.camera_position w) lookAt in
  let clamped := clampedDistance distance minimum in
  let requested := default 1.2 duration in
  exists a,
    flyTo endTarget distance duration onComplete w
    = World.mk (World.camera_position w) (World.controlsRef w) (Some a)
        (World.called w)
    /\ Flight.endPos a = Vector3.addScaledVector endTarget direction clamped
    /\ Vector3.x (Flight.endPos a)
       = Vector3.x endTarget + Vector3.x direction * clamped
    /\ Vector3.y (Flight.endPos a)
       = Vector3.y endTarget + Vector3.y direction * clamped
    /\ Vector3.z (Flight.endPos a)
       = Vector3.z endTarget + Vector3.z direction * clamped
    /\ Flight.d a = Math_max 0.2 requested
    /\ Flight.endTarget a = endTarget
    /\ Flight.startPos a = World.camera_position w
    /\ Flight.startTarget a = lookAt
    /\ Flight.t a = 0
    /\ Flight.onComplete a = onComplete
    /\ ((distance <? minimum + 0.01) = true -> clamped = minimum + 0.01)
    /\ ((minimum + 0.01 <? distance) = true -> clamped = distance)
    /\ ((requested <? 0.2) = true -> Flight.d a = 0.2)
    /\ ((0.2 <? requested) = true -> Flight.d a = requested).
Proof.
  cbv zeta. eexists. split; [reflexivity|].
  cbn [Flight.endPos Flight.d Flight.endTarget Flight.startPos
       Flight.startTarget Flight.t Flight.onComplete].
  unfold flyDirection, minD, viewingDirection, clampedDistance.
  destruct (World.controlsRef w) as [c|]; cbn [from_option];
    (do 10 (split; [reflexivity|]));
    (split; [apply Math_max_lt|]); (split; [apply Math_max_gt|]);
    (split; [apply Math_max_gt|apply Math_max_lt]).
Qed.

End Float64Flight.

Section Float64Examples.

Import Float64 Float64Notions.
#[local] Open Scope float_scope.



(** A distance of 0.1 asked for on the page, whose orbit controls have
    the minimum distance 0.5: the flight ends at distance 0.51 along the
    viewing direction, and lasts the default 1.2. *)
Lemma C7_flyTo_installs_clamped_flight_witness :
  let w1 := flyTo Vector3.zero 0.1 None None worldOfPage64 in
  exists a,
    World.animRef w1 = Some a
    /\ Flight.endPos a
       = Vector3.addScaledVector Vector3.zero
           (viewingDirection (Vector3.mk 8 6 8) Vector3.zero) (0.5 + 0.01)
    /\ Flight.d a = 1.2.
Proof.
  destruct (C7_flyTo_installs_clamped_flight Vector3.zero 0.1 None None
              worldOfPage64)
    as (a & Hfly & Hend & _ & _ & _ & Hd & _ & _ & _ & _ & _ & Hlow & _ & _
        & Hlong).
  exists a. cbv zeta. rewrite Hfly. split; [reflexivity|].
  split.
  - rewrite Hend, Hlow by reflexivity. reflexivity.
  - rewrite Hlong by reflexivity. reflexivity.
Defined.

End Float64Examples.
